(** * tp4000: decoding the serial frames of a TP4000 bench multimeter

    A shallow embedding of [tp4000.py] and the properties of its
    synchronisation, frame decoding and value interpretation.

    Layout:
    - [PyStr]   : the few Python string operations the code uses;
    - [PyFloat] : Python's [float(str)], [float * number] and ['%s' % float]
                  on IEEE binary64, built on the standard library's
                  [SpecFloat];
    - [Serial]  : the interface of the serial port the driver reads from,
                  and a scripted port for concrete runs;
    - [DmmValue], [Dmm] : the two classes of the source file;
    - the theorems. *)

From Stdlib Require Import ZArith NArith Lia SpecFloat Ascii.
From Stdlib Require String.
From Stdlib.Strings Require Import Byte.
From stdpp Require Import gmap strings list.

(** ** Python string operations *)

Module PyStr.

Definition chars (s : string) : list ascii := String.list_ascii_of_string s.

(** [c in s] for a one-character needle [c]. *)
Fixpoint contains (c : ascii) (s : string) : bool :=
  match s with
  | EmptyString => false
  | String x s' => if Ascii.eqb x c then true else contains c s'
  end.

(** [s.count(c)] for a one-character needle [c]. *)
Fixpoint count (c : ascii) (s : string) : nat :=
  match s with
  | EmptyString => 0
  | String x s' => (if Ascii.eqb x c then 1 else 0) + count c s'
  end.

(** [x in l] for a list of strings. *)
Definition mem (x : string) (l : list string) : bool :=
  existsb (String.eqb x) l.

(** [s.endswith(suffix)] *)
Fixpoint ends_with (suffix s : string) : bool :=
  if String.eqb s suffix then true
  else match s with
       | EmptyString => false
       | String _ s' => ends_with suffix s'
       end.

End PyStr.

(** ** Python floats

    CPython's [float] is IEEE 754 binary64.  Values are [spec_float]s at
    precision 53 and maximal exponent 1024; parsing and printing are
    correctly rounded, as CPython's are.  Only ASCII text is covered: the
    meter's glyphs and every literal of the source are ASCII. *)

Module PyFloat.

Local Open Scope Z_scope.

Definition prec : Z := 53.
Definition emax : Z := 1024.

Definition float := spec_float.

Definition eqb (x y : float) : bool :=
  match x, y with
  | S754_zero a, S754_zero b => Bool.eqb a b
  | S754_infinity a, S754_infinity b => Bool.eqb a b
  | S754_nan, S754_nan => true
  | S754_finite a m e, S754_finite b n f =>
      Bool.eqb a b && Pos.eqb m n && Z.eqb e f
  | _, _ => false
  end.

(** The binary64 nearest to [(-1)^s * d * 10^k], ties to even. *)
Definition of_decimal (s : bool) (d : Z) (k : Z) : float :=
  match d with
  | Z0 => S754_zero s
  | Zpos p =>
      if 0 <=? k then
        match 10 ^ k with
        | Zpos q => binary_round prec emax s (p * q) 0
        | _ => S754_nan
        end
      else
        let '(m, e, l) := SFdiv_core_binary prec emax d 0 (10 ^ (- k)) 0 in
        binary_round_aux prec emax s m e l
  | Zneg _ => S754_nan
  end.

(** [float(i)] for an integer (those of the source are far below the
    overflow threshold). *)
Definition of_int (i : Z) : float := binary_normalize prec emax i 0 false.

Definition mul (x y : float) : float := SFmul prec emax x y.

(** [int(x)] when [x.is_integer()]. *)
Definition exact_int (x : float) : option Z :=
  match x with
  | S754_zero _ => Some 0
  | S754_finite s m e =>
      let z := if s then Zneg m else Zpos m in
      if 0 <=? e then Some (z * 2 ^ e)
      else if z mod 2 ^ (- e) =? 0 then Some (z / 2 ^ (- e)) else None
  | _ => None
  end.

(** *** [float(str)] *)

Definition code (c : ascii) : Z := Z.of_N (N_of_ascii c).

Definition digit_val (c : ascii) : option Z :=
  let n := code c in
  if (48 <=? n) && (n <=? 57) then Some (n - 48) else None.

Definition is_digit (c : ascii) : bool :=
  match digit_val c with Some _ => true | None => false end.

(** [Py_ISSPACE]: tab, newline, vertical tab, form feed, carriage return,
    space. *)
Definition is_space (c : ascii) : bool :=
  let n := code c in
  ((9 <=? n) && (n <=? 13)) || (n =? 32).

Definition lower (c : ascii) : ascii :=
  let n := code c in
  if (65 <=? n) && (n <=? 90) then ascii_of_N (Z.to_N (n + 32)) else c.

Fixpoint lstrip (l : list ascii) : list ascii :=
  match l with
  | c :: l' => if is_space c then lstrip l' else l
  | [] => []
  end.

Definition strip (l : list ascii) : list ascii :=
  rev (lstrip (rev (lstrip l))).

(** An underscore is accepted only between two digits, and is dropped. *)
Fixpoint underscores (prev : option ascii) (l : list ascii)
  : option (list ascii) :=
  match l with
  | [] =>
      match prev with
      | Some "_"%char => None
      | _ => Some []
      end
  | c :: l' =>
      if Ascii.eqb c "_" then
        match prev with
        | Some p => if is_digit p then underscores (Some c) l' else None
        | None => None
        end
      else
        match prev with
        | Some "_"%char =>
            if is_digit c then cons c <$> underscores (Some c) l' else None
        | _ => cons c <$> underscores (Some c) l'
        end
  end.

(** The leading digits of [l]: their value on top of [acc], how many
    there are, and what follows them. *)
Fixpoint take_digits (acc : Z) (n : Z) (l : list ascii)
  : Z * Z * list ascii :=
  match l with
  | c :: l' =>
      match digit_val c with
      | Some d => take_digits (acc * 10 + d) (n + 1) l'
      | None => (acc, n, l)
      end
  | [] => (acc, n, [])
  end.

Definition take_sign (l : list ascii) : bool * list ascii :=
  match l with
  | "-"%char :: l' => (true, l')
  | "+"%char :: l' => (false, l')
  | _ => (false, l)
  end.

(** [e] or [E], an optional sign and at least one digit; nothing may
    follow. *)
Definition parse_exponent (l : list ascii) : option Z :=
  match l with
  | [] => Some 0
  | c :: l' =>
      if Ascii.eqb (lower c) "e" then
        let '(neg, l'') := take_sign l' in
        match take_digits 0 0 l'' with
        | (v, n, []) =>
            if 0 <? n then Some (if neg then - v else v) else None
        | _ => None
        end
      else None
  end.

Definition parse_number (s : bool) (l : list ascii) : option float :=
  let '(ip, n1, r1) := take_digits 0 0 l in
  let '(m, n2, r2) :=
    match r1 with
    | "."%char :: r => take_digits ip 0 r
    | _ => (ip, 0, r1)
    end in
  if 0 <? n1 + n2 then
    match parse_exponent r2 with
    | Some x => Some (of_decimal s m (x - n2))
    | None => None
    end
  else None.

Definition parse_signed (l : list ascii) : option float :=
  let '(s, r) := take_sign l in
  let w := String.string_of_list_ascii (map lower r) in
  if String.eqb w "inf" || String.eqb w "infinity" then
    Some (S754_infinity s)
  else if String.eqb w "nan" then Some S754_nan
  else parse_number s r.

(** [float(v)]; [None] stands for [ValueError]. *)
Definition of_string (v : string) : option float :=
  match underscores None (strip (PyStr.chars v)) with
  | Some l => parse_signed l
  | None => None
  end.

(** *** ['%s' % x], that is [repr(x)]

    The shortest decimal digit string that reads back as [x]; among
    those of that length the one nearest to [x], the even one at a tie
    (David Gay's shortest mode, which CPython uses).  It is printed
    positionally when the decimal point falls within [-4 < decpt <= 16],
    with at least one digit after the point, and with an exponent of at
    least two digits otherwise. *)

Fixpoint ndigits (fuel : nat) (n : Z) : Z :=
  match fuel with
  | O => 1
  | S f => if n <? 10 then 1 else 1 + ndigits f (n / 10)
  end.

(** Number of decimal digits of [n >= 1]. *)
Definition digits10 (n : Z) : Z := ndigits (Z.to_nat (Z.log2 n)) n.

(** [floor (log10 (num / den))] for positive [num] and [den]. *)
Definition ilog10 (num den : Z) : Z :=
  if den <=? num then digits10 (num / den) - 1
  else - digits10 ((den - 1) / num).

Definition digit_char (d : Z) : ascii := ascii_of_N (Z.to_N (48 + d)).

Fixpoint digits_of (fuel : nat) (n : Z) (acc : list ascii) : list ascii :=
  match fuel with
  | O => acc
  | S f =>
      let acc' := digit_char (n mod 10) :: acc in
      if n <? 10 then acc' else digits_of f (n / 10) acc'
  end.

(** The decimal digits of [n >= 0]. *)
Definition dec_digits (n : Z) : list ascii :=
  digits_of (S (Z.to_nat (Z.log2 n))) n [].

Fixpoint strip_zeros (fuel : nat) (c s : Z) : Z * Z :=
  match fuel with
  | O => (c, s)
  | S f =>
      if (c mod 10 =? 0) && (0 <? c) then strip_zeros f (c / 10) (s + 1)
      else (c, s)
  end.

(** Try [p] significant digits on [num / den], whose decimal exponent is
    [t]: the digit value [c] and scale [s] of a [c * 10^s] that reads
    back as [x], if there is one. *)
Definition try_digits (x : float) (num den t p : Z) : option (Z * Z) :=
  let s := t - p + 1 in
  let qn := if 0 <=? s then num else num * 10 ^ (- s) in
  let qd := if 0 <=? s then den * 10 ^ s else den in
  let lo := qn / qd in
  let r := qn mod qd in
  let back c := eqb (of_decimal false c s) x in
  if r =? 0 then Some (lo, s)
  else
    match back lo, back (lo + 1) with
    | true, true =>
        match 2 * r ?= qd with
        | Lt => Some (lo, s)
        | Gt => Some (lo + 1, s)
        | Eq => Some (if Z.even lo then lo else lo + 1, s)
        end
    | true, false => Some (lo, s)
    | false, true => Some (lo + 1, s)
    | false, false => None
    end.

Fixpoint shortest (fuel : nat) (x : float) (num den t p : Z) : Z * Z :=
  match fuel with
  | O => (num / den, 0)
  | S f =>
      match try_digits x num den t p with
      | Some cs => cs
      | None => shortest f x num den t (p + 1)
      end
  end.

(** The digits [ds] and the position [decpt] of the decimal point of
    the shortest decimal for [m * 2^e]: it is [0.ds * 10^decpt]. *)
Definition short_digits (m : positive) (e : Z) : list ascii * Z :=
  let num := if 0 <=? e then Zpos m * 2 ^ e else Zpos m in
  let den := if 0 <=? e then 1 else 2 ^ (- e) in
  let t := ilog10 num den in
  let '(c, s) := shortest 17 (S754_finite false m e) num den t 1 in
  let '(c', s') := strip_zeros 17 c s in
  let ds := dec_digits c' in
  (ds, s' + Z.of_nat (length ds)).

Definition zeros (n : Z) : list ascii := repeat "0"%char (Z.to_nat n).

Definition format_short (ds : list ascii) (decpt : Z) : list ascii :=
  let nd := Z.of_nat (length ds) in
  if (decpt <=? -4) || (16 <? decpt) then
    let x := decpt - 1 in
    let xs := dec_digits (Z.abs x) in
    let frac := match ds with
                | d :: (_ :: _) as r => d :: "."%char :: r
                | _ => ds
                end in
    frac ++ "e"%char :: (if x <? 0 then "-"%char else "+"%char)
         :: (if Z.abs x <? 10 then "0"%char :: xs else xs)
  else if decpt <=? 0 then
    "0"%char :: "."%char :: zeros (- decpt) ++ ds
  else if nd <=? decpt then
    ds ++ zeros (decpt - nd) ++ ["."%char; "0"%char]
  else
    take (Z.to_nat decpt) ds ++ "."%char :: drop (Z.to_nat decpt) ds.

Definition to_string (x : float) : string :=
  match x with
  | S754_nan => "nan"
  | S754_infinity s => if s then "-inf" else "inf"
  | S754_zero s => if s then "-0.0" else "0.0"
  | S754_finite s m e =>
      let '(ds, decpt) := short_digits m e in
      String.string_of_list_ascii
        ((if s then ["-"%char] else []) ++ format_short ds decpt)
  end.

End PyFloat.

(** ** Exceptions and results

    The three exceptions of the source, and the built-in ones its
    statements can raise: [KeyError] from a dictionary lookup, [IndexError]
    from [bytes[i]], [TypeError] from [str += None], [ZeroDivisionError]
    from [// 0]. *)

Inductive exn :=
  | DmmNoData
  | DmmInvalidSyncValue
  | DmmReadFailure
  | KeyError
  | IndexError
  | TypeError
  | ZeroDivisionError.

Inductive result (A : Type) :=
  | Ok (a : A)
  | Raise (e : exn).
Arguments Ok {A} a.
Arguments Raise {A} e.

#[global] Instance result_ret : MRet result := λ A a, Ok a.
#[global] Instance result_bind : MBind result := λ A B f m,
  match m with
  | Ok a => f a
  | Raise e => Raise e
  end.

(** [d[k]] on a dictionary. *)
Definition getitem `{Countable K} {V} (d : gmap K V) (k : K) : result V :=
  match d !! k with
  | Some v => Ok v
  | None => Raise KeyError
  end.

(** Python integers are [Z]; [//] and [%] by a positive number are
    [Z.div] and [Z.modulo]. *)
Definition int_of_byte (b : byte) : Z := Z.of_N (Byte.to_N b).

(** [bs[i]] on a [bytes] object: a negative index counts from the end. *)
Definition bytes_getitem (bs : list byte) (i : Z) : result Z :=
  let n := Z.of_nat (length bs) in
  let j := if (i <? 0)%Z then (i + n)%Z else i in
  if (j <? 0)%Z then Raise IndexError
  else match bs !! Z.to_nat j with
       | Some b => Ok (int_of_byte b)
       | None => Raise IndexError
       end.

(** A multiplier is the integer [1] or a float of the scale table. *)
Inductive pynum :=
  | PyInt (z : Z)
  | PyFlt (x : PyFloat.float).

(** [x * n] for a float [x]. *)
Definition float_mul (x : PyFloat.float) (n : pynum) : PyFloat.float :=
  match n with
  | PyInt z => PyFloat.mul x (PyFloat.of_int z)
  | PyFlt y => PyFloat.mul x y
  end.

(** ** class DmmValue *)

Module DmmValue.

(** The attributes of an instance.  Those that [__init__] sets only
    through a [process...] method start at the value that method gives
    them first. *)
Record t := Build {
  saneValue : bool;
  rawVal : string;
  val : string;
  flags : list string;
  scaleFlags : list string;
  measurementFlags : list string;
  reservedFlags : list string;
  readErrors : Z;
  rawBytes : list byte;
  text : string;
  ACDC : option string;
  ACDCText : string;
  delta : bool;
  deltaText : string;
  scale : string;
  multiplier : pynum;
  measurement : option string;
  numericVal : option PyFloat.float
}.

(** Attribute assignment, [self.f = x]. *)
Definition set_saneValue x (d : t) :=
  let 'Build _ a b c e f g h i j k l m n o p q r := d in
  Build x a b c e f g h i j k l m n o p q r.
Definition set_val x (d : t) :=
  let 'Build a b _ c e f g h i j k l m n o p q r := d in
  Build a b x c e f g h i j k l m n o p q r.
Definition set_text x (d : t) :=
  let 'Build a b c e f g h i j _ k l m n o p q r := d in
  Build a b c e f g h i j x k l m n o p q r.
Definition set_ACDC x (d : t) :=
  let 'Build a b c e f g h i j k _ l m n o p q r := d in
  Build a b c e f g h i j k x l m n o p q r.
Definition set_ACDCText x (d : t) :=
  let 'Build a b c e f g h i j k l _ m n o p q r := d in
  Build a b c e f g h i j k l x m n o p q r.
Definition set_delta x (d : t) :=
  let 'Build a b c e f g h i j k l m _ n o p q r := d in
  Build a b c e f g h i j k l m x n o p q r.
Definition set_deltaText x (d : t) :=
  let 'Build a b c e f g h i j k l m n _ o p q r := d in
  Build a b c e f g h i j k l m n x o p q r.
Definition set_scale x (d : t) :=
  let 'Build a b c e f g h i j k l m n o _ p q r := d in
  Build a b c e f g h i j k l m n o x p q r.
Definition set_multiplier x (d : t) :=
  let 'Build a b c e f g h i j k l m n o p _ q r := d in
  Build a b c e f g h i j k l m n o p x q r.
Definition set_measurement x (d : t) :=
  let 'Build a b c e f g h i j k l m n o p q _ r := d in
  Build a b c e f g h i j k l m n o p q x r.
Definition set_numericVal x (d : t) :=
  let 'Build a b c e f g h i j k l m n o p q r _ := d in
  Build a b c e f g h i j k l m n o p q r x.

Definition createTextExpression (self : t) : result t :=
  let text := deltaText self in
  let text := text +:+ val self in
  let text := text +:+ " " in
  let text := text +:+ scale self in
  match measurement self with
  | None => Raise TypeError
  | Some m =>
      let text := text +:+ m in
      let text := text +:+ ACDCText self in
      Ok (set_text text self)
  end.

Definition processFlags (self : t) : t :=
  let flags := flags self in
  let self := set_ACDC None self in
  let self := set_ACDCText "" self in
  let self := set_delta false self in
  let self := set_deltaText "" self in
  let self :=
    if PyStr.mem "AC" flags && PyStr.mem "DC" flags
    then set_saneValue false self else self in
  let self :=
    if PyStr.mem "AC" flags then set_ACDC (Some "AC") self else self in
  let self :=
    if PyStr.mem "DC" flags then set_ACDC (Some "DC") self else self in
  let self :=
    match ACDC self with
    | Some a => set_ACDCText (" " +:+ a) self
    | None => self
    end in
  if PyStr.mem "REL delta" flags
  then set_deltaText "delta " (set_delta true self)
  else self.

(** The literals [0.000000001], [0.000001], [0.001], [1000.0] and
    [1000000.0], each by its digits and the place of its point. *)
Definition scaleTable : gmap string PyFloat.float :=
  list_to_map
    [ ("nano", PyFloat.of_decimal false 1 (-9));
      ("micro", PyFloat.of_decimal false 1 (-6));
      ("milli", PyFloat.of_decimal false 1 (-3));
      ("kilo", PyFloat.of_decimal false 10000 (-1));
      ("mega", PyFloat.of_decimal false 10000000 (-1)) ].

Definition processScale (self : t) : result t :=
  let s := scaleFlags self in
  let self := set_scale "" self in
  let self := set_multiplier (PyInt 1) self in
  match s with
  | [] => Ok self
  | s0 :: rest =>
      if 1 <? length s
      then Ok (set_saneValue false self)
      else
        let self := set_scale s0 self in
        x ← getitem scaleTable (scale self);
        Ok (set_multiplier (PyFlt x) self)
  end.

Definition processMeasurement (self : t) : t :=
  let m := measurementFlags self in
  let self := set_measurement None self in
  match m with (* len(m) != 1 *)
  | [m0] => set_measurement (Some m0) self
  | _ => set_saneValue false self
  end.

Definition processVal (self : t) : t :=
  let v := rawVal self in
  let self := set_numericVal None self in
  if PyStr.contains "X" v then set_saneValue false self
  else if 1 <? PyStr.count "." v then set_saneValue false self
  else
    match PyFloat.of_string v with
    | Some n =>
        let self := set_val (PyFloat.to_string n) self in
        set_numericVal (Some (float_mul n (multiplier self))) self
    | None => self
    end.

(** [DmmValue(val, attribs, readErrors, rawBytes)] *)
Definition init (val : string) (attribs : gmap string (list string))
    (readErrors : Z) (rawBytes : list byte) : result t :=
  flags ← getitem attribs "flags";
  scaleFlags ← getitem attribs "scale";
  measurementFlags ← getitem attribs "measure";
  reservedFlags ← getitem attribs "other";
  let self :=
    Build true val val flags scaleFlags measurementFlags reservedFlags
          readErrors rawBytes "Invalid Value"
          None "" false "" "" (PyInt 1) None None in
  let self := processFlags self in
  self ← processScale self;
  let self := processMeasurement self in
  let self := processVal self in
  if saneValue self then createTextExpression self else Ok self.

End DmmValue.

(** ** The serial port

    [ser.read(n)] blocks until [n] bytes have arrived or the timeout has
    passed, and returns what arrived: at most [n] bytes, none on a silent
    line.  A port is any state with such a read. *)

Class Serial (port : Type) := {
  ser_read : nat → port → list byte * port;
  ser_read_length : ∀ n p, length (ser_read n p).1 ≤ n
}.

(** One call of [ser.read]: the size asked for and the bytes returned. *)
Inductive event :=
  | Read (n : nat) (got : list byte).

(** A scripted port: the bursts of bytes still to arrive, a silence longer
    than the timeout between two bursts.  A read is served from the first
    burst; it times out with the whole burst when the burst is shorter than
    the request. *)
Module Script.

Definition t := list (list byte).

Definition read (n : nat) (p : t) : list byte * t :=
  match p with
  | [] => ([], [])
  | b :: rest =>
      if decide (n ≤ length b) then (take n b, drop n b :: rest)
      else (b, rest)
  end.

Lemma read_length n p : length (read n p).1 ≤ n.
Proof.
  destruct p as [|b rest]; simpl; [lia|].
  case_decide; simpl; [rewrite length_take|]; lia.
Qed.

#[global] Instance serial : Serial t :=
  {| ser_read := read; ser_read_length := read_length |}.

End Script.

(** ** class Dmm *)

Module Dmm.

Definition bytesPerRead : Z := 14.

(** An instance; [self.ser] is the port the [io] computations run on. *)
Record t := Build { retries : Z }.

Definition bits : list (Z * list (string * string)) :=
  [ (1, [("flags", "AC"); ("flags", "DC"); ("flags", "AUTO");
         ("flags", "RS232")]);
    (10, [("scale", "micro"); ("scale", "nano"); ("scale", "kilo");
          ("measure", "diode")]);
    (11, [("scale", "milli"); ("measure", "% (duty-cycle)");
          ("scale", "mega"); ("flags", "beep")]);
    (12, [("measure", "Farads"); ("measure", "Ohms");
          ("flags", "REL delta"); ("flags", "Hold")]);
    (13, [("measure", "Amps"); ("measure", "volts"); ("measure", "Hertz");
          ("other", "other_13_1")]);
    (14, [("other", "other_14_4"); ("measure", "degrees Celcius");
          ("other", "other_14_2"); ("other", "other_14_1")]) ]%Z.

Definition digits : list (Z * Z * string) :=
  [ (2, 3, "-"); (4, 5, "."); (6, 7, "."); (8, 9, ".") ]%Z.

Definition digitTable : gmap (Z * Z) string :=
  list_to_map
    [ ((0, 5), "1"); ((5, 11), "2"); ((1, 15), "3"); ((2, 7), "4");
      ((3, 14), "5"); ((7, 14), "6"); ((1, 5), "7"); ((7, 15), "8");
      ((3, 15), "9"); ((7, 13), "0"); ((6, 8), "L"); ((0, 0), " ") ]%Z.

Definition _initAttribs : gmap string (list string) :=
  list_to_map [ ("flags", []); ("scale", []); ("measure", []);
                ("other", []) ].

(** The loop of [_readAttribByte], from the current [b] and [bitVal]. *)
Fixpoint readAttribBits (bits : list (string * string)) (b bitVal : Z)
    (attribs : gmap string (list string))
  : result (gmap string (list string)) :=
  match bits with
  | [] => Ok attribs
  | (attr, val) :: rest =>
      if decide (bitVal = 0)%Z then Raise ZeroDivisionError
      else
        let v := (b / bitVal)%Z in
        if decide (v ≠ 0)%Z then
          let b := (b - bitVal)%Z in
          l ← getitem attribs attr;
          readAttribBits rest b (bitVal / 2)%Z (<[attr := l ++ [val]]> attribs)
        else readAttribBits rest b (bitVal / 2)%Z attribs
  end.

Definition _readAttribByte (byte : Z) (bits : list (string * string))
    (attribs : gmap string (list string))
  : result (gmap string (list string)) :=
  let b := (byte mod 16)%Z in
  let bitVal := 8%Z in
  readAttribBits bits b bitVal attribs.

Definition _readDigit (byte1 byte2 : Z) : Z * string :=
  let b1 := (byte1 mod 16)%Z in
  let highBit := (b1 / 8)%Z in
  let b1 := (b1 mod 8)%Z in
  let b2 := (byte2 mod 16)%Z in
  let digit :=
    match digitTable !! (b1, b2) with
    | Some d => d
    | None => "X"
    end in
  (highBit, digit).

(** The digit loop of [read]: the value string after the cells [ds]. *)
Fixpoint readDigits (ds : list (Z * Z * string)) (bytes : list byte)
    (val : string) : result string :=
  match ds with
  | [] => Ok val
  | (d1, d2, ch) :: rest =>
      x1 ← bytes_getitem bytes (d1 - 1)%Z;
      x2 ← bytes_getitem bytes (d2 - 1)%Z;
      let '(highBit, digit) := _readDigit x1 x2 in
      let val := if decide (highBit ≠ 0)%Z then val +:+ ch else val in
      let val := val +:+ digit in
      readDigits rest bytes val
  end.

(** The attribute loop of [read], over [bits.items()]. *)
Fixpoint readAttribs (items : list (Z * list (string * string)))
    (bytes : list byte) (attribs : gmap string (list string))
  : result (gmap string (list string)) :=
  match items with
  | [] => Ok attribs
  | (k, v) :: rest =>
      x ← bytes_getitem bytes (k - 1)%Z;
      attribs ← _readAttribByte x v attribs;
      readAttribs rest bytes attribs
  end.

(** What [read] does with an aligned frame. *)
Definition decode (readAttempt : Z) (bytes : list byte)
  : result DmmValue.t :=
  val ← readDigits digits bytes "";
  attribs ← readAttribs bits bytes _initAttribs;
  DmmValue.init val attribs readAttempt bytes.

Section WithPort.

Context {port : Type} `{!Serial port}.

(** A computation on the port: its result, the port afterwards, and
    the reads it made, oldest first. *)
Definition io (A : Type) : Type := port → result A * port * list event.

#[global] Instance io_ret : MRet io := λ A a p, (Ok a, p, []).

#[global] Instance io_bind : MBind io := λ A B f m p,
  match m p with
  | (Ok a, p1, t1) => let '(r, p2, t2) := f a p1 in (r, p2, t1 ++ t2)
  | (Raise e, p1, t1) => (Raise e, p1, t1)
  end.

Definition lift {A} (r : result A) : io A := λ p, (r, p, []).

Definition raise {A} (e : exn) : io A := lift (Raise e).

(** [self.ser.read(n)] *)
Definition ser_read_io (n : Z) : io (list byte) := λ p,
  let '(bs, p') := ser_read (Z.to_nat n) p in
  (Ok bs, p', [Read (Z.to_nat n) bs]).

Definition _synchronize : io () :=
  v ← ser_read_io 1;
  if decide (length v ≠ 1) then raise DmmNoData
  else
    n ← lift (bytes_getitem v 0);
    let pos := (n / 16)%Z in
    if decide (pos = 0 ∨ pos = 15)%Z then raise DmmInvalidSyncValue
    else
      let bytesNeeded := (bytesPerRead - pos)%Z in
      if decide (bytesNeeded ≠ 0)%Z
      then v ← ser_read_io bytesNeeded; mret ()
      else mret ().

(** The inner loop of [read] from position [pos] on: [true] when it
    runs to its [else] branch, [false] when it resynchronises and
    breaks. *)
Fixpoint checkPositions (bytes : list byte) (pos : Z) : io bool :=
  match bytes with
  | [] => mret true
  | byte :: rest =>
      if decide (int_of_byte byte / 16 ≠ pos)%Z
      then _synchronize;; mret false
      else checkPositions rest (pos + 1)%Z
  end.

(** The retry loop of [read] with [n] iterations left, at iteration
    [readAttempt]: the iteration that succeeded and its frame, or
    [None] when the loop runs out. *)
Fixpoint attempts (n : nat) (readAttempt : Z)
  : io (option (Z * list byte)) :=
  match n with
  | O => mret None
  | S n' =>
      bytes ← ser_read_io bytesPerRead;
      if decide (Z.of_nat (length bytes) ≠ bytesPerRead)
      then _synchronize;; attempts n' (readAttempt + 1)%Z
      else
        checkPositions bytes 1 ≫= λ success : bool,
          if success then mret (Some (readAttempt, bytes))
          else _synchronize;; attempts n' (readAttempt + 1)%Z
  end.

Definition read (self : t) : io DmmValue.t :=
  r ← attempts (Z.to_nat (retries self)) 0;
  match r with
  | None => raise DmmReadFailure
  | Some (readAttempt, bytes) => lift (decode readAttempt bytes)
  end.

(** [Dmm(port, retries, timeout)], the port already opened. *)
Definition init (retries : Z) : io t :=
  let self := Build retries in
  _synchronize;; mret self.

End WithPort.

End Dmm.

(** * Vocabulary of the properties *)

(** ** What [DmmValue.__init__] computes

    The attributes of the constructed object as functions of the digit
    string [v] and of the flag lists [fl], [sc] and [ms] found under
    ["flags"], ["scale"] and ["measure"]. *)

(** No [KeyError] in [processScale]: a lone scale flag is in the table. *)
Definition scale_known (sc : list string) : bool :=
  match sc with
  | [s] => bool_decide (is_Some (DmmValue.scaleTable !! s))
  | _ => true
  end.

Definition flags_sane (fl : list string) : bool :=
  negb (PyStr.mem "AC" fl && PyStr.mem "DC" fl).

Definition val_sane (v : string) : bool :=
  negb (PyStr.contains "X" v) && negb (1 <? PyStr.count "." v).

Definition sane_of (v : string) (fl sc ms : list string) : bool :=
  flags_sane fl && negb (1 <? length sc) && bool_decide (length ms = 1)
  && val_sane v.

Definition acdc_of (fl : list string) : option string :=
  if PyStr.mem "DC" fl then Some "DC"
  else if PyStr.mem "AC" fl then Some "AC" else None.

Definition suffix_of (fl : list string) : string :=
  match acdc_of fl with
  | Some a => " " +:+ a
  | None => ""
  end.

Definition delta_of (fl : list string) : string :=
  if PyStr.mem "REL delta" fl then "delta " else "".

Definition scale_of (sc : list string) : string :=
  match sc with
  | [s] => s
  | _ => ""
  end.

Definition multiplier_of (sc : list string) : pynum :=
  match sc with
  | [s] => from_option PyFlt (PyInt 1) (DmmValue.scaleTable !! s)
  | _ => PyInt 1
  end.

Definition measurement_of (ms : list string) : option string :=
  match ms with
  | [m] => Some m
  | _ => None
  end.

Definition val_of (v : string) : string :=
  if val_sane v then
    match PyFloat.of_string v with
    | Some n => PyFloat.to_string n
    | None => v
    end
  else v.

Definition numeric_of (v : string) (m : pynum) : option PyFloat.float :=
  if val_sane v then (λ n, float_mul n m) <$> PyFloat.of_string v
  else None.

(** The text as [createTextExpression] accumulates it. *)
Definition text_of (v : string) (fl sc ms : list string) : string :=
  if sane_of v fl sc ms then
    ((((delta_of fl +:+ val_of v) +:+ " ") +:+ scale_of sc)
       +:+ default "" (measurement_of ms)) +:+ suffix_of fl
  else "Invalid Value".

(** The dictionary [{'flags': fl, 'scale': sc, 'measure': ms, 'other': ot}]. *)
Definition attribs_of (fl sc ms ot : list string)
  : gmap string (list string) :=
  list_to_map [("flags", fl); ("scale", sc); ("measure", ms); ("other", ot)].

(** The names that [Dmm.bits] files under a category. *)
Definition vocabulary (cat : string) : list string :=
  flat_map
    (λ '(_, l), map snd (List.filter (λ e, String.eqb e.1 cat) l))
    Dmm.bits.

Definition measure_known (ms : list string) : bool :=
  forallb (λ m, PyStr.mem m (vocabulary "measure")) ms.

(** ** The tables in the words of the specification *)

(** Digit pair to glyph, [X] for every other pair. *)
Definition spec_glyph (b1 b2 : Z) : string :=
  match b1, b2 with
  | 0, 5 => "1"
  | 5, 11 => "2"
  | 1, 15 => "3"
  | 2, 7 => "4"
  | 3, 14 => "5"
  | 7, 14 => "6"
  | 1, 5 => "7"
  | 7, 15 => "8"
  | 3, 15 => "9"
  | 7, 13 => "0"
  | 6, 8 => "L"
  | 0, 0 => " "
  | _, _ => "X"
  end%Z.

(** Scale flag to multiplier, as the literal the specification writes. *)
Definition spec_scale : list (string * string) :=
  [ ("nano", "1e-9"); ("micro", "1e-6"); ("milli", "1e-3");
    ("kilo", "1e3"); ("mega", "1e6") ].

(** ** Frames and traces *)

(** The position a byte claims, [byte // 16]. *)
Definition position (b : byte) : Z := (int_of_byte b / 16)%Z.

(** Every byte of [bytes] claims its own position, counting from [pos]. *)
Fixpoint aligned_from (pos : Z) (bytes : list byte) : bool :=
  match bytes with
  | [] => true
  | b :: rest => (position b =? pos)%Z && aligned_from (pos + 1) rest
  end.

Definition aligned (bytes : list byte) : bool := aligned_from 1 bytes.

(** The reads of a [_synchronize] that returns: the marker byte, then the
    rest of its frame unless the marker is the last byte. *)
Inductive sync_ok : list event → Prop :=
  | sync_ok_last b :
      position b = 14%Z → sync_ok [Read 1 [b]]
  | sync_ok_skip b rest :
      (1 ≤ position b ≤ 13)%Z →
      sync_ok [Read 1 [b]; Read (Z.to_nat (14 - position b)) rest].

(** The reads of a [_synchronize] that raises [e]. *)
Inductive sync_fail : exn → list event → Prop :=
  | sync_fail_silent :
      sync_fail DmmNoData [Read 1 []]
  | sync_fail_marker b :
      position b = 0%Z ∨ position b = 15%Z →
      sync_fail DmmInvalidSyncValue [Read 1 [b]].

(** The reads of one iteration of [read] that goes on to the next. *)
Inductive failed_attempt : list event → Prop :=
  | failed_short f s :
      length f < 14 → sync_ok s → failed_attempt (Read 14 f :: s)
  | failed_misaligned f s1 s2 :
      length f = 14 → aligned f = false → sync_ok s1 → sync_ok s2 →
      failed_attempt (Read 14 f :: s1 ++ s2).

(** The reads of one iteration of [read] that a resynchronisation ends
    with the exception [e]. *)
Inductive aborted_attempt (e : exn) : list event → Prop :=
  | aborted_short f s :
      length f < 14 → sync_fail e s → aborted_attempt e (Read 14 f :: s)
  | aborted_first f s :
      length f = 14 → aligned f = false → sync_fail e s →
      aborted_attempt e (Read 14 f :: s)
  | aborted_second f s1 s2 :
      length f = 14 → aligned f = false → sync_ok s1 → sync_fail e s2 →
      aborted_attempt e (Read 14 f :: s1 ++ s2).

(** ** Sample frames *)

(** Digits [-1.234], flags [milli] and [volts]. *)
Definition millivolts_frame : list byte :=
  [x10; x28; x35; x4d; x5b; x61; x7f; x82; x97; xa0; xb8; xc0; xd4; xe0].

(** Digits [-1.234], flags [volts], no scale flag. *)
Definition volts_frame : list byte :=
  [x10; x28; x35; x4d; x5b; x61; x7f; x82; x97; xa0; xb0; xc0; xd4; xe0].

(** Digits [-1.234], flags [AC], [DC] and [Ohms], no scale flag. *)
Definition acdc_frame : list byte :=
  [x1c; x28; x35; x4d; x5b; x61; x7f; x82; x97; xa0; xb0; xc4; xd0; xe0].

(** Four blank digits, flag [Ohms]. *)
Definition blank_frame : list byte :=
  [x10; x20; x30; x40; x50; x60; x70; x80; x90; xa0; xb0; xc4; xd0; xe0].

(** ** Invariants of decoding and reading *)

(** The dictionary of attributes keeps its four keys, and its scale
    flags are names of the scale table. *)
Definition attribs_ok (a : gmap string (list string)) : Prop :=
  ∃ fl sc ms ot,
    a !! "flags" = Some fl ∧ a !! "scale" = Some sc
    ∧ a !! "measure" = Some ms ∧ a !! "other" = Some ot
    ∧ Forall (λ s, is_Some (DmmValue.scaleTable !! s)) sc.

(** An entry of [Dmm.bits] files under one of the four keys, and under
    ["scale"] only a name of the scale table. *)
Definition entry_ok (e : string * string) : Prop :=
  e.1 ∈ ["flags"; "scale"; "measure"; "other"]
  ∧ (e.1 = "scale" → is_Some (DmmValue.scaleTable !! e.2)).

(** The frame reads of a trace: those of [bytesPerRead] bytes. *)
Definition frame_reads (t : list event) : nat :=
  length (List.filter (λ '(Read n _), n =? 14) t).

(** The result of a computation after the reads [t0]. *)
Definition prefixed {A port} (t0 : list event)
    (x : result A * port * list event) : result A * port * list event :=
  let '(r, p, t) := x in (r, p, t0 ++ t).

(** ** Vocabulary of the decoding and of the driver *)

(** [attribs[e.1].append(e.2)] *)
Definition push (a : gmap string (list string)) (e : string * string)
  : result (gmap string (list string)) :=
  l ← getitem a e.1; Ok (<[e.1 := l ++ [e.2]]> a).

Fixpoint push_all (a : gmap string (list string))
    (es : list (string * string)) : result (gmap string (list string)) :=
  match es with
  | [] => Ok a
  | e :: es' => a' ← push a e; push_all a' es'
  end.

(** The entries of a row whose bit is set in [b], the first entry being
    bit [bit] and each next one the bit below. *)
Fixpoint selected_from (bit : Z) (b : Z) (row : list (string * string))
  : list (string * string) :=
  match row with
  | [] => []
  | e :: rest =>
      (if Z.testbit b bit then [e] else []) ++ selected_from (bit - 1) b rest
  end.

Definition selected (b : Z) (row : list (string * string))
  : list (string * string) := selected_from 3 b row.

(** The names among [es] filed under the category [cat]. *)
Definition names_in (cat : string) (es : list (string * string))
  : list string :=
  map snd (List.filter (λ e, String.eqb e.1 cat) es).

(** [bytes[i]] as an integer, [0] out of range. *)
Definition byte_at (bytes : list byte) (i : Z) : Z :=
  match bytes !! Z.to_nat i with
  | Some b => int_of_byte b
  | None => 0%Z
  end.

(** The entries a frame selects from the rows [items], row after row. *)
Definition frame_entries (items : list (Z * list (string * string)))
    (bytes : list byte) : list (string * string) :=
  flat_map (λ '(k, row), selected (byte_at bytes (k - 1) mod 16) row) items.

(** The reads of a [_synchronize] that starts at offset [q] of [frame]. *)
Definition sync_reads (q : nat) (frame : list byte) : list event :=
  Read 1 (take 1 (drop q frame))
    :: (if decide (q = 13) then [] else [Read (13 - q) (drop (S q) frame)]).

(** One digit cell of the value string: its punctuation when bit 3 of the
    first byte is set, then its glyph. *)
Definition cell (byteA byteB : Z) (ch : string) : string :=
  (if Z.testbit byteA 3 then ch else "")
    +:+ spec_glyph (byteA mod 8) (byteB mod 16).

(** The value string of a frame, cell after cell. *)
Definition digit_string (ds : list (Z * Z * string)) (bytes : list byte)
  : string :=
  foldr (λ '(d1, d2, ch) acc,
           cell (byte_at bytes (d1 - 1)) (byte_at bytes (d2 - 1)) ch +:+ acc)
        "" ds.

(** The integer that the decimal digits [ns] write, on top of [acc]. *)
Definition horner (acc : Z) (ns : list Z) : Z :=
  fold_left (λ a d, a * 10 + d)%Z ns acc.

(** The text of a plain decimal: a minus sign when [neg], the digits
    [ns1], and a point with the digits [ns2] when [pt]. *)
Definition decimal_text (neg : bool) (ns1 : list Z) (pt : bool)
    (ns2 : list Z) : string :=
  String.string_of_list_ascii
    ((if neg then ["-"%char] else [])
       ++ map PyFloat.digit_char ns1
       ++ (if pt then "."%char :: map PyFloat.digit_char ns2 else [])).

(** The float nearest to the decimal that [decimal_text] writes. *)
Definition decimal_value (neg : bool) (ns1 : list Z) (pt : bool)
    (ns2 : list Z) : PyFloat.float :=
  PyFloat.of_decimal neg
    (horner 0 (ns1 ++ if pt then ns2 else []))
    (- Z.of_nat (length (if pt then ns2 else []))).

(** * Properties *)

(** ** The constructor of [DmmValue] *)

Section Interpretation.

Import DmmValue.

Ltac fields :=
  cbn [set_saneValue set_val set_text set_ACDC set_ACDCText set_delta
       set_deltaText set_scale set_multiplier set_measurement
       set_numericVal
       saneValue rawVal val flags scaleFlags measurementFlags
       reservedFlags readErrors rawBytes text ACDC ACDCText delta
       deltaText scale multiplier measurement numericVal].

Lemma processFlags_Build sane raw v fl sc ms ot re rb txt a b c d e f g h :
  processFlags (Build sane raw v fl sc ms ot re rb txt a b c d e f g h) =
  Build (sane && flags_sane fl) raw v fl sc ms ot re rb txt
        (acdc_of fl) (suffix_of fl) (PyStr.mem "REL delta" fl)
        (delta_of fl) e f g h.
Proof.
  unfold processFlags, flags_sane, suffix_of, acdc_of, delta_of. fields.
  destruct (PyStr.mem "AC" fl), (PyStr.mem "DC" fl),
    (PyStr.mem "REL delta" fl), sane; reflexivity.
Qed.

Lemma processScale_Build sane raw v fl sc ms ot re rb txt a b c d e f g h :
  scale_known sc = true →
  processScale (Build sane raw v fl sc ms ot re rb txt a b c d e f g h) =
  Ok (Build (sane && negb (1 <? length sc)) raw v fl sc ms ot re rb txt
            a b c d (scale_of sc) (multiplier_of sc) g h).
Proof.
  intros Hk. unfold processScale. fields.
  destruct sc as [|s0 [|s1 sc']];
    cbn [length Nat.ltb Nat.leb negb scale_of multiplier_of]; fields.
  - by rewrite andb_true_r.
  - apply bool_decide_eq_true in Hk as [x Hx].
    unfold getitem. rewrite Hx. cbn [mbind result_bind from_option].
    by rewrite andb_true_r.
  - by rewrite andb_false_r.
Qed.

Lemma processMeasurement_Build
    sane raw v fl sc ms ot re rb txt a b c d e f g h :
  processMeasurement
    (Build sane raw v fl sc ms ot re rb txt a b c d e f g h) =
  Build (sane && bool_decide (length ms = 1)) raw v fl sc ms ot re rb txt
        a b c d e f (measurement_of ms) h.
Proof.
  unfold processMeasurement, measurement_of. fields.
  destruct ms as [|m0 [|m1 ms']]; fields; cbn [length].
  - by rewrite andb_false_r.
  - rewrite bool_decide_eq_true_2 by done. by rewrite andb_true_r.
  - rewrite bool_decide_eq_false_2 by lia. by rewrite andb_false_r.
Qed.

Lemma processVal_Build sane raw v fl sc ms ot re rb txt a b c d e f g h :
  processVal (Build sane raw v fl sc ms ot re rb txt a b c d e f g h) =
  Build (sane && val_sane raw) raw
        (if val_sane raw then
           match PyFloat.of_string raw with
           | Some n => PyFloat.to_string n
           | None => v
           end
         else v)
        fl sc ms ot re rb txt a b c d e f g (numeric_of raw f).
Proof.
  unfold processVal, numeric_of, val_sane. fields.
  destruct (PyStr.contains "X" raw); cbn [negb andb]; fields.
  { by rewrite andb_false_r. }
  destruct (1 <? PyStr.count "." raw); cbn [negb andb]; fields.
  { by rewrite andb_false_r. }
  rewrite andb_true_r.
  destruct (PyFloat.of_string raw); reflexivity.
Qed.

(** The constructor returns, and this is the object it returns. *)
Lemma init_eq v a re rb fl sc ms ot :
  a !! "flags" = Some fl → a !! "scale" = Some sc →
  a !! "measure" = Some ms → a !! "other" = Some ot →
  scale_known sc = true →
  init v a re rb =
  Ok (Build (sane_of v fl sc ms) v (val_of v) fl sc ms ot re rb
            (text_of v fl sc ms) (acdc_of fl) (suffix_of fl)
            (PyStr.mem "REL delta" fl) (delta_of fl)
            (scale_of sc) (multiplier_of sc) (measurement_of ms)
            (numeric_of v (multiplier_of sc))).
Proof.
  intros Hf Hs Hm Ho Hk.
  unfold init, getitem. rewrite Hf, Hs, Hm, Ho. cbn [mbind result_bind].
  rewrite processFlags_Build,
    (processScale_Build _ _ _ _ _ _ _ _ _ _ _ _ _ _ _ _ _ _ Hk).
  cbn [mbind result_bind].
  rewrite processMeasurement_Build, processVal_Build. fields.
  unfold text_of, sane_of, val_of. cbn [andb].
  destruct (flags_sane fl && negb (1 <? length sc)
            && bool_decide (length ms = 1) && val_sane v) eqn:E;
    [|reflexivity].
  unfold createTextExpression, measurement_of. fields.
  destruct ms as [|m0 [|m1 ms']].
  - rewrite andb_false_r in E. discriminate.
  - reflexivity.
  - cbn [length] in E. rewrite bool_decide_eq_false_2 in E by lia.
    rewrite andb_false_r in E. discriminate.
Qed.

End Interpretation.

(** ** Strings and membership *)

Lemma mem_true x l : PyStr.mem x l = true ↔ x ∈ l.
Proof.
  unfold PyStr.mem. induction l as [|y l IH]; cbn [existsb].
  - split; [discriminate | by intros ?%not_elem_of_nil].
  - rewrite orb_true_iff, IH, String.eqb_eq, elem_of_cons. done.
Qed.

Lemma mem_false x l : PyStr.mem x l = false ↔ x ∉ l.
Proof. rewrite <- mem_true. by destruct (PyStr.mem x l). Qed.

Lemma append_assoc (s1 s2 s3 : string) :
  (s1 +:+ s2) +:+ s3 = s1 +:+ (s2 +:+ s3).
Proof.
  induction s1 as [|c s1 IH]; [done|].
  change (String c ((s1 +:+ s2) +:+ s3) = String c (s1 +:+ (s2 +:+ s3))).
  by rewrite IH.
Qed.

Lemma ends_with_append pre suf : PyStr.ends_with suf (pre +:+ suf) = true.
Proof.
  induction pre as [|c pre IH].
  - change ("" +:+ suf) with suf.
    destruct suf; cbn [PyStr.ends_with]; by rewrite ?String.eqb_refl.
  - change (String c pre +:+ suf) with (String c (pre +:+ suf)).
    cbn [PyStr.ends_with].
    destruct (String.eqb _ _); [done | exact IH].
Qed.

Lemma attribs_of_lookup fl sc ms ot :
  attribs_of fl sc ms ot !! "flags" = Some fl
  ∧ attribs_of fl sc ms ot !! "scale" = Some sc
  ∧ attribs_of fl sc ms ot !! "measure" = Some ms
  ∧ attribs_of fl sc ms ot !! "other" = Some ot.
Proof. unfold attribs_of. cbn [list_to_map foldr]. by simplify_map_eq. Qed.

(** A unit name of the table followed by an AC/DC suffix is never the end
    of the placeholder text. *)
Lemma unit_not_in_sentinel m fl :
  measure_known [m] = true →
  PyStr.ends_with (m +:+ suffix_of fl) "Invalid Value" = false.
Proof.
  unfold measure_known. cbn [forallb]. rewrite andb_true_r.
  assert (vocabulary "measure" =
          ["diode"; "% (duty-cycle)"; "Farads"; "Ohms"; "Amps"; "volts";
           "Hertz"; "degrees Celcius"]) as -> by reflexivity.
  rewrite mem_true, list_elem_of_In. intros Hm.
  unfold suffix_of, acdc_of.
  repeat destruct Hm as [<-|Hm]; [..|done];
    by destruct (PyStr.mem "DC" fl), (PyStr.mem "AC" fl).
Qed.

(** ** Interpretation of a raw decode *)

Ltac project :=
  cbn [DmmValue.saneValue DmmValue.rawVal DmmValue.val DmmValue.flags
       DmmValue.scaleFlags DmmValue.measurementFlags DmmValue.reservedFlags
       DmmValue.readErrors DmmValue.rawBytes DmmValue.text DmmValue.ACDC
       DmmValue.ACDCText DmmValue.delta DmmValue.deltaText DmmValue.scale
       DmmValue.multiplier DmmValue.measurement DmmValue.numericVal].

Lemma numeric_of_None v m :
  numeric_of v m = None ↔
  PyStr.contains "X" v = true ∨ 1 < PyStr.count "." v
  ∨ PyFloat.of_string v = None.
Proof.
  unfold numeric_of, val_sane.
  destruct (PyStr.contains "X" v); cbn [negb andb].
  { split; [by left | done]. }
  destruct (1 <? PyStr.count "." v) eqn:E; cbn [negb].
  - apply Nat.ltb_lt in E. split; [by right; left | done].
  - apply Nat.ltb_ge in E.
    destruct (PyFloat.of_string v); cbn [fmap option_fmap option_map].
    + split; [done | intros [?|[?|?]]; [done | lia | done]].
    + split; [by right; right | done].
Qed.

Lemma sane_of_true v fl sc ms :
  sane_of v fl sc ms = true →
  flags_sane fl = true ∧ length sc ≤ 1 ∧ (∃ m, ms = [m]) ∧ val_sane v = true.
Proof.
  unfold sane_of. rewrite !andb_true_iff, negb_true_iff, Nat.ltb_ge.
  intros [[[? ?] Hm] ?]. apply bool_decide_eq_true in Hm.
  repeat split; try done.
  destruct ms as [|m [|??]]; try done. by exists m.
Qed.

(** C1 (amended): an object that is not sane carries the text
    "Invalid Value"; its numeric value is absent exactly when the digit
    string holds an [X], holds more than one point, or does not read as a
    float. *)
Theorem insane_text_and_numeric v a re rb fl sc ms ot :
  a !! "flags" = Some fl → a !! "scale" = Some sc →
  a !! "measure" = Some ms → a !! "other" = Some ot →
  scale_known sc = true →
  ∃ d, DmmValue.init v a re rb = Ok d
    ∧ (DmmValue.saneValue d = false → DmmValue.text d = "Invalid Value")
    ∧ (DmmValue.numericVal d = None ↔
       PyStr.contains "X" v = true ∨ 1 < PyStr.count "." v
       ∨ PyFloat.of_string v = None).
Proof.
  intros Hf Hs Hm Ho Hk. rewrite (init_eq _ _ _ _ _ _ _ _ Hf Hs Hm Ho Hk).
  eexists; split; [reflexivity|]. project. split.
  - unfold text_of. by intros ->.
  - apply numeric_of_None.
Qed.

Lemma insane_text_and_numeric_witness :
  ∃ d, DmmValue.init "-1.234" (attribs_of ["AC"; "DC"] [] ["Ohms"] []) 0 []
       = Ok d
    ∧ (DmmValue.saneValue d = false → DmmValue.text d = "Invalid Value")
    ∧ (DmmValue.numericVal d = None ↔
       PyStr.contains "X" "-1.234" = true ∨ 1 < PyStr.count "." "-1.234"
       ∨ PyFloat.of_string "-1.234" = None).
Proof.
  apply (insane_text_and_numeric "-1.234" _ 0 [] ["AC"; "DC"] [] ["Ohms"] []);
    reflexivity.
Defined.

(** C1, as stated, fails on scenario 2: the frame with digits [-1.234],
    no scale flag, [Ohms], and both [AC] and [DC] decodes to an object
    that is not sane and shows "Invalid Value", yet has the numeric value
    [-1.234]. *)
Lemma acdc_frame_keeps_numeric :
  ∃ d x, Dmm.decode 0 acdc_frame = Ok d
    ∧ DmmValue.rawVal d = "-1.234"
    ∧ DmmValue.flags d = ["AC"; "DC"]
    ∧ DmmValue.scaleFlags d = []
    ∧ DmmValue.measurementFlags d = ["Ohms"]
    ∧ DmmValue.saneValue d = false
    ∧ DmmValue.text d = "Invalid Value"
    ∧ PyFloat.of_string "-1.234" = Some x
    ∧ DmmValue.numericVal d = Some x.
Proof. vm_compute. eexists _, _. repeat split. Qed.

(** C2 (amended): a sane object has the composed text, which is not the
    placeholder, and its numeric value is present exactly when the digit
    string reads as a float; then it is that float times the multiplier and
    the value text is the float printed back. *)
Theorem sane_text_and_numeric v a re rb fl sc ms ot :
  a !! "flags" = Some fl → a !! "scale" = Some sc →
  a !! "measure" = Some ms → a !! "other" = Some ot →
  scale_known sc = true → measure_known ms = true →
  ∃ d, DmmValue.init v a re rb = Ok d
    ∧ (DmmValue.saneValue d = true →
       (∃ m, ms = [m]
          ∧ DmmValue.text d =
            ((((DmmValue.deltaText d +:+ DmmValue.val d) +:+ " ")
                +:+ DmmValue.scale d) +:+ m) +:+ DmmValue.ACDCText d)
       ∧ DmmValue.text d ≠ "Invalid Value"
       ∧ (DmmValue.numericVal d = None ↔ PyFloat.of_string v = None)
       ∧ (∀ n, PyFloat.of_string v = Some n →
            DmmValue.numericVal d = Some (float_mul n (DmmValue.multiplier d))
            ∧ DmmValue.val d = PyFloat.to_string n)).
Proof.
  intros Hf Hs Hm Ho Hk Hv. rewrite (init_eq _ _ _ _ _ _ _ _ Hf Hs Hm Ho Hk).
  eexists; split; [reflexivity|]. project. intros Hsane.
  destruct (sane_of_true _ _ _ _ Hsane) as (_ & _ & [m ->] & Hval).
  unfold text_of, numeric_of, val_of. rewrite Hsane, Hval.
  cbn [measurement_of default from_option id]. split_and!.
  - by exists m.
  - intros E. pose proof (unit_not_in_sentinel m fl Hv) as Hn.
    rewrite <- E, append_assoc, ends_with_append in Hn. discriminate.
  - by destruct (PyFloat.of_string v).
  - by intros n ->.
Qed.

Lemma sane_text_and_numeric_witness :
  ∃ d, DmmValue.init "-1.234" (attribs_of [] ["milli"] ["volts"] []) 0 []
       = Ok d
    ∧ (DmmValue.saneValue d = true →
       (∃ m, ["volts"] = [m]
          ∧ DmmValue.text d =
            ((((DmmValue.deltaText d +:+ DmmValue.val d) +:+ " ")
                +:+ DmmValue.scale d) +:+ m) +:+ DmmValue.ACDCText d)
       ∧ DmmValue.text d ≠ "Invalid Value"
       ∧ (DmmValue.numericVal d = None ↔ PyFloat.of_string "-1.234" = None)
       ∧ (∀ n, PyFloat.of_string "-1.234" = Some n →
            DmmValue.numericVal d = Some (float_mul n (DmmValue.multiplier d))
            ∧ DmmValue.val d = PyFloat.to_string n)).
Proof.
  apply (sane_text_and_numeric "-1.234" _ 0 [] [] ["milli"] ["volts"] []);
    reflexivity.
Defined.

(** C2, as stated, fails on a frame of four blank digits with the single
    flag [Ohms]: one measurement flag, no scale flag, neither [AC] nor
    [DC], no [X] and no point, and the object is sane with no numeric
    value. *)
Lemma blank_frame_sane_without_numeric :
  ∃ d, Dmm.decode 0 blank_frame = Ok d
    ∧ DmmValue.rawVal d = "    "
    ∧ DmmValue.flags d = []
    ∧ DmmValue.scaleFlags d = []
    ∧ DmmValue.measurementFlags d = ["Ohms"]
    ∧ PyStr.contains "X" (DmmValue.rawVal d) = false
    ∧ PyStr.count "." (DmmValue.rawVal d) = 0
    ∧ DmmValue.saneValue d = true
    ∧ DmmValue.text d = "     Ohms"
    ∧ DmmValue.numericVal d = None.
Proof. vm_compute. eexists. repeat split. Qed.

(** C3 (amended): two or more scale flags make the object not sane; no
    scale flag leaves sanity to the other checks, with multiplier [1] and
    an empty scale label. *)
Theorem scale_count_and_sanity v a re rb fl sc ms ot :
  a !! "flags" = Some fl → a !! "scale" = Some sc →
  a !! "measure" = Some ms → a !! "other" = Some ot →
  length sc ≠ 1 →
  ∃ d, DmmValue.init v a re rb = Ok d
    ∧ (2 ≤ length sc → DmmValue.saneValue d = false)
    ∧ (sc = [] →
       DmmValue.saneValue d =
         flags_sane fl && bool_decide (length ms = 1) && val_sane v
       ∧ DmmValue.multiplier d = PyInt 1
       ∧ DmmValue.scale d = "").
Proof.
  intros Hf Hs Hm Ho Hn.
  assert (scale_known sc = true) as Hk by by destruct sc as [|? [|??]].
  rewrite (init_eq _ _ _ _ _ _ _ _ Hf Hs Hm Ho Hk).
  eexists; split; [reflexivity|]. project. unfold sane_of. split.
  - intros H2. apply Nat.ltb_lt in H2. rewrite H2. cbn [negb].
    by rewrite andb_false_r.
  - intros ->. cbn [length Nat.ltb Nat.leb negb scale_of multiplier_of].
    by rewrite andb_true_r.
Qed.

Lemma scale_count_and_sanity_witness :
  ∃ d, DmmValue.init "-1.234"
         (attribs_of [] ["milli"; "kilo"] ["volts"] []) 0 [] = Ok d
    ∧ (2 ≤ length ["milli"; "kilo"] → DmmValue.saneValue d = false)
    ∧ (["milli"; "kilo"] = [] →
       DmmValue.saneValue d =
         flags_sane [] && bool_decide (length ["volts"] = 1)
         && val_sane "-1.234"
       ∧ DmmValue.multiplier d = PyInt 1
       ∧ DmmValue.scale d = "").
Proof.
  apply (scale_count_and_sanity "-1.234" _ 0 [] [] ["milli"; "kilo"]
           ["volts"] []); [reflexivity .. | simpl; lia].
Defined.

(** C3, as stated, fails on a frame without any scale flag: digits
    [-1.234] and the single flag [volts] decode to a sane object. *)
Lemma volts_frame_sane_without_scale :
  ∃ d, Dmm.decode 0 volts_frame = Ok d
    ∧ DmmValue.scaleFlags d = []
    ∧ DmmValue.measurementFlags d = ["volts"]
    ∧ DmmValue.saneValue d = true
    ∧ DmmValue.text d = "-1.234 volts".
Proof. vm_compute. eexists. repeat split. Qed.

(** The five names of the scale table. *)
Lemma scaleTable_names s x :
  DmmValue.scaleTable !! s = Some x →
  s ∈ ["nano"; "micro"; "milli"; "kilo"; "mega"].
Proof.
  unfold DmmValue.scaleTable. cbn [list_to_map foldr].
  intros H. repeat (apply lookup_insert_Some in H as [[<- _]|[_ H]];
                    [set_solver|]).
  by rewrite lookup_empty in H.
Qed.

(** Each entry of the scale table is the float the specification's
    literal denotes. *)
Lemma scaleTable_spec s lit :
  (s, lit) ∈ spec_scale →
  ∃ x, PyFloat.of_string lit = Some x ∧ DmmValue.scaleTable !! s = Some x.
Proof.
  unfold spec_scale. rewrite list_elem_of_In. intros H.
  repeat destruct H as [[= <- <-]|H]; [..|done];
    eexists; split; vm_compute; reflexivity.
Qed.

(** C4: without a scale flag the multiplier is the integer 1, the label
    is empty and [processScale] leaves the object otherwise as it was;
    with more than one the object is not sane; with exactly one the label
    is its name and the multiplier is the table's float, which is the
    float of the specification's literal, 1000 exactly for [kilo] and
    1000000 exactly for [mega]. *)
Theorem scale_multiplier v a re rb fl sc ms ot :
  a !! "flags" = Some fl → a !! "scale" = Some sc →
  a !! "measure" = Some ms → a !! "other" = Some ot →
  scale_known sc = true →
  (∀ self, DmmValue.scaleFlags self = [] →
     DmmValue.processScale self =
     Ok (DmmValue.set_multiplier (PyInt 1) (DmmValue.set_scale "" self)))
  ∧ ∃ d, DmmValue.init v a re rb = Ok d
    ∧ (sc = [] → DmmValue.multiplier d = PyInt 1 ∧ DmmValue.scale d = "")
    ∧ (1 < length sc → DmmValue.saneValue d = false)
    ∧ (∀ s, sc = [s] →
       DmmValue.scale d = s
       ∧ ∃ lit x, (s, lit) ∈ spec_scale
           ∧ PyFloat.of_string lit = Some x
           ∧ DmmValue.multiplier d = PyFlt x
           ∧ (s = "kilo" → PyFloat.exact_int x = Some 1000%Z)
           ∧ (s = "mega" → PyFloat.exact_int x = Some 1000000%Z)).
Proof.
  intros Hf Hs Hm Ho Hk. split.
  { intros self E. unfold DmmValue.processScale. by rewrite E. }
  rewrite (init_eq _ _ _ _ _ _ _ _ Hf Hs Hm Ho Hk).
  eexists; split; [reflexivity|]. project. split_and!.
  - by intros ->.
  - intros H1. unfold sane_of. apply Nat.ltb_lt in H1. rewrite H1.
    cbn [negb]. by rewrite andb_false_r.
  - intros s ->. split; [done|]. cbn [multiplier_of].
    apply bool_decide_eq_true in Hk as [x Hx]. rewrite Hx.
    cbn [from_option].
    pose proof (scaleTable_names _ _ Hx) as Hin.
    apply list_elem_of_In in Hin.
    repeat destruct Hin as [<-|Hin]; [..|done];
      vm_compute in Hx; injection Hx as <-.
    + exists "1e-9". eexists. split_and!; [set_solver | by vm_compute | done..].
    + exists "1e-6". eexists. split_and!; [set_solver | by vm_compute | done..].
    + exists "1e-3". eexists. split_and!; [set_solver | by vm_compute | done..].
    + exists "1e3". eexists. split_and!; [set_solver | by vm_compute | done..].
    + exists "1e6". eexists. split_and!; [set_solver | by vm_compute | done..].
Qed.

Lemma scale_multiplier_witness :
  (∀ self, DmmValue.scaleFlags self = [] →
     DmmValue.processScale self =
     Ok (DmmValue.set_multiplier (PyInt 1) (DmmValue.set_scale "" self)))
  ∧ ∃ d, DmmValue.init "-1.234"
           (attribs_of [] ["kilo"] ["Ohms"] []) 0 [] = Ok d
    ∧ (["kilo"] = [] →
       DmmValue.multiplier d = PyInt 1 ∧ DmmValue.scale d = "")
    ∧ (1 < length ["kilo"] → DmmValue.saneValue d = false)
    ∧ (∀ s, ["kilo"] = [s] →
       DmmValue.scale d = s
       ∧ ∃ lit x, (s, lit) ∈ spec_scale
           ∧ PyFloat.of_string lit = Some x
           ∧ DmmValue.multiplier d = PyFlt x
           ∧ (s = "kilo" → PyFloat.exact_int x = Some 1000%Z)
           ∧ (s = "mega" → PyFloat.exact_int x = Some 1000000%Z)).
Proof.
  apply (scale_multiplier "-1.234" _ 0 [] [] ["kilo"] ["Ohms"] []);
    reflexivity.
Defined.

(** C5: with both [AC] and [DC] the object is not sane; with one of them
    it is recorded and its text, a blank and the name, ends the composed
    text; with neither there is no suffix; and unless there is exactly one
    measurement flag the object is not sane. *)
Theorem acdc_and_measurement v a re rb fl sc ms ot :
  a !! "flags" = Some fl → a !! "scale" = Some sc →
  a !! "measure" = Some ms → a !! "other" = Some ot →
  scale_known sc = true →
  ∃ d, DmmValue.init v a re rb = Ok d
    ∧ ("AC" ∈ fl → "DC" ∈ fl → DmmValue.saneValue d = false)
    ∧ ("AC" ∈ fl → "DC" ∉ fl →
       DmmValue.ACDC d = Some "AC" ∧ DmmValue.ACDCText d = " AC")
    ∧ ("DC" ∈ fl → "AC" ∉ fl →
       DmmValue.ACDC d = Some "DC" ∧ DmmValue.ACDCText d = " DC")
    ∧ ("AC" ∉ fl → "DC" ∉ fl →
       DmmValue.ACDC d = None ∧ DmmValue.ACDCText d = "")
    ∧ (DmmValue.saneValue d = true →
       ∃ m, ms = [m]
         ∧ DmmValue.text d =
           ((((DmmValue.deltaText d +:+ DmmValue.val d) +:+ " ")
               +:+ DmmValue.scale d) +:+ m) +:+ DmmValue.ACDCText d)
    ∧ (length ms ≠ 1 → DmmValue.saneValue d = false).
Proof.
  intros Hf Hs Hm Ho Hk. rewrite (init_eq _ _ _ _ _ _ _ _ Hf Hs Hm Ho Hk).
  eexists; split; [reflexivity|]. project.
  unfold suffix_of, acdc_of. split_and!.
  - intros Hac Hdc. apply mem_true in Hac, Hdc.
    unfold sane_of, flags_sane. by rewrite Hac, Hdc.
  - intros Hac Hdc. apply mem_true in Hac. apply mem_false in Hdc.
    by rewrite Hac, Hdc.
  - intros Hdc _. apply mem_true in Hdc. by rewrite Hdc.
  - intros Hac Hdc. apply mem_false in Hac, Hdc. by rewrite Hac, Hdc.
  - intros Hsane.
    destruct (sane_of_true _ _ _ _ Hsane) as (_ & _ & [m ->] & _).
    exists m. split; [done|]. unfold text_of. by rewrite Hsane.
  - intros Hn. unfold sane_of. rewrite bool_decide_eq_false_2 by done.
    by rewrite andb_false_r.
Qed.

Lemma acdc_and_measurement_witness :
  ∃ d, DmmValue.init "-1.234" (attribs_of ["AC"] [] ["volts"] []) 0 []
       = Ok d
    ∧ ("AC" ∈ ["AC"] → "DC" ∈ ["AC"] → DmmValue.saneValue d = false)
    ∧ ("AC" ∈ ["AC"] → "DC" ∉ ["AC"] →
       DmmValue.ACDC d = Some "AC" ∧ DmmValue.ACDCText d = " AC")
    ∧ ("DC" ∈ ["AC"] → "AC" ∉ ["AC"] →
       DmmValue.ACDC d = Some "DC" ∧ DmmValue.ACDCText d = " DC")
    ∧ ("AC" ∉ ["AC"] → "DC" ∉ ["AC"] →
       DmmValue.ACDC d = None ∧ DmmValue.ACDCText d = "")
    ∧ (DmmValue.saneValue d = true →
       ∃ m, ["volts"] = [m]
         ∧ DmmValue.text d =
           ((((DmmValue.deltaText d +:+ DmmValue.val d) +:+ " ")
               +:+ DmmValue.scale d) +:+ m) +:+ DmmValue.ACDCText d)
    ∧ (length ["volts"] ≠ 1 → DmmValue.saneValue d = false).
Proof.
  apply (acdc_and_measurement "-1.234" _ 0 [] ["AC"] [] ["volts"] []);
    reflexivity.
Defined.

(** C9: on a digit string without [X] and with at most one point that
    does not read as a float, [processVal] only sets the numeric value to
    absent: sanity and the value text stay as they were, and the
    constructed object is sane whenever the flag checks pass. *)
Theorem unparsed_value_stays_sane v a re rb fl sc ms ot :
  a !! "flags" = Some fl → a !! "scale" = Some sc →
  a !! "measure" = Some ms → a !! "other" = Some ot →
  scale_known sc = true →
  PyStr.contains "X" v = false → PyStr.count "." v ≤ 1 →
  PyFloat.of_string v = None →
  (∀ self, DmmValue.rawVal self = v →
     DmmValue.processVal self = DmmValue.set_numericVal None self)
  ∧ ∃ d, DmmValue.init v a re rb = Ok d
    ∧ DmmValue.numericVal d = None
    ∧ DmmValue.val d = v
    ∧ DmmValue.saneValue d =
        flags_sane fl && negb (1 <? length sc)
        && bool_decide (length ms = 1).
Proof.
  intros Hf Hs Hm Ho Hk HX Hdot Hnone.
  apply Nat.ltb_ge in Hdot. split.
  { intros self <-. unfold DmmValue.processVal.
    by rewrite HX, Hdot, Hnone. }
  rewrite (init_eq _ _ _ _ _ _ _ _ Hf Hs Hm Ho Hk).
  eexists; split; [reflexivity|]. project.
  unfold numeric_of, val_of, sane_of, val_sane.
  rewrite HX, Hdot, Hnone. cbn [negb andb]. split_and!; try done.
  by rewrite andb_true_r.
Qed.

Lemma unparsed_value_stays_sane_witness :
  (∀ self, DmmValue.rawVal self = " 0.L" →
     DmmValue.processVal self = DmmValue.set_numericVal None self)
  ∧ ∃ d, DmmValue.init " 0.L" (attribs_of [] ["mega"] ["Ohms"] []) 0 []
         = Ok d
    ∧ DmmValue.numericVal d = None
    ∧ DmmValue.val d = " 0.L"
    ∧ DmmValue.saneValue d =
        flags_sane [] && negb (1 <? length ["mega"])
        && bool_decide (length ["Ohms"] = 1).
Proof.
  apply (unparsed_value_stays_sane " 0.L" _ 0 [] [] ["mega"] ["Ohms"] []);
    [reflexivity .. | simpl; lia | reflexivity].
Defined.

(** ** Decoding a frame *)

(** The digit table is the table of the specification. *)
Lemma digitTable_spec x y :
  (0 ≤ x < 8)%Z → (0 ≤ y < 16)%Z →
  default "X" (Dmm.digitTable !! (x, y)) = spec_glyph x y.
Proof.
  intros Hx Hy.
  assert (x = 0 ∨ x = 1 ∨ x = 2 ∨ x = 3 ∨ x = 4 ∨ x = 5 ∨ x = 6 ∨ x = 7)%Z
    as Hx' by lia.
  assert (y = 0 ∨ y = 1 ∨ y = 2 ∨ y = 3 ∨ y = 4 ∨ y = 5 ∨ y = 6 ∨ y = 7
          ∨ y = 8 ∨ y = 9 ∨ y = 10 ∨ y = 11 ∨ y = 12 ∨ y = 13 ∨ y = 14
          ∨ y = 15)%Z as Hy' by lia.
  clear Hx Hy. destruct_or!; subst; reflexivity.
Qed.

Lemma readDigit_spec byte1 byte2 :
  Dmm._readDigit byte1 byte2 =
  ((byte1 mod 16 / 8)%Z,
   spec_glyph ((byte1 mod 16) mod 8) (byte2 mod 16)).
Proof.
  unfold Dmm._readDigit. f_equal.
  rewrite <- digitTable_spec by (apply Z.mod_pos_bound; lia).
  by destruct (Dmm.digitTable !! _).
Qed.

(** C6: [_readDigit] returns, for every pair of bytes, the glyph the
    specification's table gives for the pair of their digit bits and [X]
    for a pair the table does not hold; and a digit string with an [X]
    makes the object not sane. *)
Theorem digit_glyphs byte1 byte2 v a re rb fl sc ms ot :
  a !! "flags" = Some fl → a !! "scale" = Some sc →
  a !! "measure" = Some ms → a !! "other" = Some ot →
  scale_known sc = true →
  PyStr.contains "X" v = true →
  Dmm._readDigit byte1 byte2 =
    ((byte1 mod 16 / 8)%Z,
     spec_glyph ((byte1 mod 16) mod 8) (byte2 mod 16))
  ∧ (Dmm.digitTable !! ((byte1 mod 16) mod 8, byte2 mod 16)%Z = None →
     (Dmm._readDigit byte1 byte2).2 = "X")
  ∧ ∃ d, DmmValue.init v a re rb = Ok d ∧ DmmValue.saneValue d = false.
Proof.
  intros Hf Hs Hm Ho Hk HX. split_and!.
  - apply readDigit_spec.
  - unfold Dmm._readDigit. cbn [snd]. by intros ->.
  - rewrite (init_eq _ _ _ _ _ _ _ _ Hf Hs Hm Ho Hk).
    eexists; split; [reflexivity|]. project.
    unfold sane_of, val_sane. rewrite HX. cbn [negb andb].
    by rewrite andb_false_r.
Qed.

Lemma digit_glyphs_witness :
  Dmm._readDigit 36 57 =
    ((36 mod 16 / 8)%Z, spec_glyph ((36 mod 16) mod 8) (57 mod 16))
  ∧ (Dmm.digitTable !! ((36 mod 16) mod 8, 57 mod 16)%Z = None →
     (Dmm._readDigit 36 57).2 = "X")
  ∧ ∃ d, DmmValue.init " 1X3" (attribs_of [] [] ["volts"] []) 0 [] = Ok d
       ∧ DmmValue.saneValue d = false.
Proof.
  apply (digit_glyphs 36 57 " 1X3" _ 0 [] [] [] ["volts"] []); reflexivity.
Defined.

Lemma bytes_getitem_ok bs i :
  (0 ≤ i < Z.of_nat (length bs))%Z →
  ∃ b, bs !! Z.to_nat i = Some b ∧ bytes_getitem bs i = Ok (int_of_byte b).
Proof.
  intros Hi. unfold bytes_getitem. cbv zeta.
  destruct (Z.ltb_spec i 0) as [|_]; [lia|].
  destruct (Z.ltb_spec i 0) as [|_]; [lia|].
  destruct (lookup_lt_is_Some_2 bs (Z.to_nat i)) as [b Hb]; [lia|].
  exists b. by rewrite Hb.
Qed.

Lemma readDigits_total ds bytes val :
  Forall (λ '(d1, d2, _),
            (1 ≤ d1 ≤ Z.of_nat (length bytes))%Z
            ∧ (1 ≤ d2 ≤ Z.of_nat (length bytes))%Z) ds →
  ∃ v, Dmm.readDigits ds bytes val = Ok v.
Proof.
  intros H. revert val.
  induction H as [|[[d1 d2] ch] ds [H1 H2] _ IH]; intros val.
  - by exists val.
  - cbn [Dmm.readDigits].
    destruct (bytes_getitem_ok bytes (d1 - 1)) as (b1 & _ & ->); [lia|].
    destruct (bytes_getitem_ok bytes (d2 - 1)) as (b2 & _ & ->); [lia|].
    cbn [mbind result_bind]. rewrite readDigit_spec. apply IH.
Qed.

Lemma attribs_ok_append a attr val :
  attribs_ok a → entry_ok (attr, val) →
  ∃ l, a !! attr = Some l ∧ attribs_ok (<[attr := l ++ [val]]> a).
Proof.
  intros (fl & sc & ms & ot & Hf & Hs & Hm & Ho & Hsc) [Hin Hscale].
  cbn [fst snd] in Hin, Hscale. apply list_elem_of_In in Hin.
  repeat destruct Hin as [<-|Hin]; [..|done]; eexists; (split; [eassumption|]).
  - exists (fl ++ [val]), sc, ms, ot. by simplify_map_eq.
  - exists fl, (sc ++ [val]), ms, ot. simplify_map_eq. split_and!; try done.
    apply Forall_app. split; [done|]. apply Forall_singleton. by apply Hscale.
  - exists fl, sc, (ms ++ [val]), ot. by simplify_map_eq.
  - exists fl, sc, ms, (ot ++ [val]). by simplify_map_eq.
Qed.

Lemma readAttribBits_ok bits b bitVal a :
  Forall entry_ok bits → attribs_ok a →
  (bits ≠ [] → 2 ^ Z.of_nat (length bits) ≤ 2 * bitVal)%Z →
  ∃ a', Dmm.readAttribBits bits b bitVal a = Ok a' ∧ attribs_ok a'.
Proof.
  intros H. revert b bitVal a.
  induction H as [|[attr val] bits He _ IH]; intros b bitVal a Ha Hb.
  - by exists a.
  - cbn [Dmm.readAttribBits].
    specialize (Hb ltac:(done)). cbn [length] in Hb.
    rewrite Nat2Z.inj_succ, Z.pow_succ_r in Hb by lia.
    assert (0 < 2 ^ Z.of_nat (length bits))%Z by (apply Z.pow_pos_nonneg; lia).
    rewrite decide_False by lia.
    assert (bits ≠ [] →
            2 ^ Z.of_nat (length bits) ≤ 2 * (bitVal / 2))%Z as Hnext.
    { intros Hne. destruct bits as [|e bits]; [done|]. cbn [length] in *.
      rewrite Nat2Z.inj_succ, Z.pow_succ_r in * by lia.
      apply Z.mul_le_mono_nonneg_l; [lia|].
      apply Z.div_le_lower_bound; lia. }
    case_decide.
    + unfold getitem.
      destruct (attribs_ok_append a attr val Ha He) as (l & -> & Ha').
      cbn [mbind result_bind]. by apply IH.
    + by apply IH.
Qed.

Lemma readAttribs_ok items bytes a :
  Forall (λ '(k, v),
            (1 ≤ k ≤ Z.of_nat (length bytes))%Z ∧ Forall entry_ok v
            ∧ length v ≤ 4) items →
  attribs_ok a →
  ∃ a', Dmm.readAttribs items bytes a = Ok a' ∧ attribs_ok a'.
Proof.
  intros H. revert a.
  induction H as [|[k v] items (Hk & Hv & Hlen) _ IH]; intros a Ha.
  - by exists a.
  - cbn [Dmm.readAttribs].
    destruct (bytes_getitem_ok bytes (k - 1)) as (b & _ & ->); [lia|].
    cbn [mbind result_bind]. unfold Dmm._readAttribByte.
    destruct (readAttribBits_ok v (int_of_byte b mod 16) 8 a Hv Ha)
      as (a' & -> & Ha').
    { intros _. transitivity (2 ^ 4)%Z; [|lia].
      apply Z.pow_le_mono_r; lia. }
    cbn [mbind result_bind]. by apply IH.
Qed.

Lemma bits_ok :
  Forall (λ '(k, v), (1 ≤ k ≤ 14)%Z ∧ Forall entry_ok v ∧ length v ≤ 4)
         Dmm.bits.
Proof.
  unfold Dmm.bits.
  repeat match goal with
         | |- Forall _ [] => apply Forall_nil_2
         | |- Forall _ (_ :: _) => apply Forall_cons_2
         | |- _ ∧ _ => split
         | |- entry_ok _ =>
             split; cbn [fst snd];
             [set_solver
             | intros E; try discriminate E; eexists; by vm_compute]
         | |- (_ ≤ _)%Z => lia
         | |- _ ≤ _ => cbn [length]; lia
         end.
Qed.

(** An object built from a full frame: [decode] never raises. *)
Lemma decode_total readAttempt bytes :
  length bytes = 14 →
  ∃ d, Dmm.decode readAttempt bytes = Ok d
    ∧ DmmValue.rawBytes d = bytes
    ∧ DmmValue.readErrors d = readAttempt.
Proof.
  intros Hlen. unfold Dmm.decode.
  destruct (readDigits_total Dmm.digits bytes "") as [v ->].
  { rewrite Hlen. unfold Dmm.digits.
    repeat (apply Forall_cons_2; [lia|]). apply Forall_nil_2. }
  cbn [mbind result_bind].
  destruct (readAttribs_ok Dmm.bits bytes Dmm._initAttribs)
    as (a & -> & fl & sc & ms & ot & Hf & Hs & Hm & Ho & Hsc).
  { rewrite Hlen. apply bits_ok. }
  { exists [], [], [], []. split_and!; by try apply Forall_nil. }
  cbn [mbind result_bind].
  rewrite (init_eq _ _ _ _ _ _ _ _ Hf Hs Hm Ho).
  - by eexists.
  - destruct sc as [|s [|??]]; try done. cbn [scale_known].
    apply bool_decide_eq_true.
    exact (proj1 (Forall_singleton _ _) Hsc).
Qed.

(** ** Reading from the port *)

(** A frame is aligned when each byte claims its 1-based index. *)
Lemma aligned_from_spec pos bytes :
  aligned_from pos bytes = true ↔
  ∀ i b, bytes !! i = Some b → position b = (pos + Z.of_nat i)%Z.
Proof.
  revert pos. induction bytes as [|b0 bytes IH]; intros pos.
  - split; [intros _ i b Hi; by destruct i | done].
  - cbn [aligned_from]. rewrite andb_true_iff, Z.eqb_eq, IH. split.
    + intros [H0 Hrest] [|i] b Hi.
      * injection Hi as <-. lia.
      * rewrite (Hrest i b Hi). lia.
    + intros H. split.
      * rewrite (H 0 b0 eq_refl). lia.
      * intros i b Hi. rewrite (H (S i) b Hi). lia.
Qed.

Lemma aligned_spec bytes :
  aligned bytes = true ↔
  ∀ i b, bytes !! i = Some b → position b = Z.of_nat (S i).
Proof.
  unfold aligned. rewrite aligned_from_spec.
  split; intros H i b Hi; rewrite (H i b Hi); lia.
Qed.

Lemma position_range b : (0 ≤ position b ≤ 15)%Z.
Proof.
  unfold position, int_of_byte.
  pose proof (Byte.to_N_bounded b).
  split; [apply Z.div_pos; lia|].
  apply Z.lt_succ_r, Z.div_lt_upper_bound; lia.
Qed.

Section Driver.

Context {port : Type} `{!Serial port}.

Implicit Types p : port.

Lemma run_bind_Ok {A B} (m : Dmm.io A) (f : A → Dmm.io B) p a p1 t1 :
  m p = (Ok a, p1, t1) →
  (m ≫= f) p = let '(r, p2, t2) := f a p1 in (r, p2, t1 ++ t2).
Proof. intros H. unfold mbind, Dmm.io_bind. by rewrite H. Qed.

Lemma run_bind_Raise {A B} (m : Dmm.io A) (f : A → Dmm.io B) p e p1 t1 :
  m p = (Raise e, p1, t1) → (m ≫= f) p = (Raise e, p1, t1).
Proof. intros H. unfold mbind, Dmm.io_bind. by rewrite H. Qed.

Lemma run_bind_assoc {A B C} (m : Dmm.io A) (f : A → Dmm.io B)
    (g : B → Dmm.io C) p :
  ((m ≫= f) ≫= g) p = (m ≫= λ a, f a ≫= g) p.
Proof.
  unfold mbind, Dmm.io_bind.
  destruct (m p) as [[[a|e] p1] t1]; [|done].
  destruct (f a p1) as [[[b|e] p2] t2]; [|done].
  destruct (g b p2) as [[r p3] t3]. by rewrite app_assoc.
Qed.

Lemma ser_read_io_run n p :
  Dmm.ser_read_io n p =
  (Ok (ser_read (Z.to_nat n) p).1, (ser_read (Z.to_nat n) p).2,
   [Read (Z.to_nat n) (ser_read (Z.to_nat n) p).1]).
Proof. unfold Dmm.ser_read_io. by destruct (ser_read _ p). Qed.

(** What [_synchronize] does, by what the port delivers. *)
Lemma synchronize_run p :
  Dmm._synchronize p =
  let '(v, p1) := ser_read 1 p in
  match v with
  | [b] =>
      if decide (position b = 0 ∨ position b = 15)%Z
      then (Raise DmmInvalidSyncValue, p1, [Read 1 [b]])
      else if decide (position b = 14)%Z
      then (Ok (), p1, [Read 1 [b]])
      else
        let '(rest, p2) := ser_read (Z.to_nat (14 - position b)) p1 in
        (Ok (), p2, [Read 1 [b]; Read (Z.to_nat (14 - position b)) rest])
  | _ => (Raise DmmNoData, p1, [Read 1 v])
  end.
Proof.
  unfold Dmm._synchronize.
  unfold mbind at 1. unfold Dmm.io_bind. rewrite ser_read_io_run.
  change (Z.to_nat 1) with 1.
  destruct (ser_read 1 p) as [v p1]. cbn [fst snd].
  destruct v as [|b [|b' v]]; try done.
  rewrite decide_False by (cbn [length]; lia).
  unfold mbind at 1. unfold Dmm.io_bind, Dmm.lift.
  change (bytes_getitem [b] 0) with (Ok (int_of_byte b) : result Z).
  cbv zeta. unfold position, Dmm.bytesPerRead.
  set (pos := (int_of_byte b / 16)%Z).
  case_decide; [done|].
  destruct (decide (pos = 14)%Z) as [E|E].
  - rewrite decide_False by lia. done.
  - rewrite decide_True by lia.
    unfold mbind, Dmm.io_bind. rewrite ser_read_io_run.
    by destruct (ser_read _ p1).
Qed.

(** A resynchronisation returns with the reads of [sync_ok] or raises
    with the reads of [sync_fail]. *)
Lemma synchronize_outcome p :
  match Dmm._synchronize p with
  | (Ok _, _, t) => sync_ok t
  | (Raise e, _, t) => sync_fail e t
  end.
Proof.
  rewrite synchronize_run.
  pose proof (ser_read_length 1 p) as Hlen.
  destruct (ser_read 1 p) as [v p1]. cbn [fst] in Hlen.
  destruct v as [|b [|b' v]]; [constructor | | cbn [length] in Hlen; lia].
  pose proof (position_range b).
  case_decide; [by constructor|].
  case_decide; [by constructor|].
  destruct (ser_read _ p1) as [rest p2]. constructor. lia.
Qed.

Lemma checkPositions_run bytes pos p :
  Dmm.checkPositions bytes pos p =
  if aligned_from pos bytes then (Ok true, p, [])
  else (Dmm._synchronize ≫= λ _, mret false) p.
Proof.
  revert pos. induction bytes as [|b bytes IH]; intros pos; [done|].
  cbn [Dmm.checkPositions aligned_from]. fold (position b).
  case_decide as E.
  - apply Z.eqb_neq in E. by rewrite E.
  - rewrite E, Z.eqb_refl. apply IH.
Qed.

End Driver.

Lemma frame_reads_app t1 t2 :
  frame_reads (t1 ++ t2) = frame_reads t1 + frame_reads t2.
Proof. unfold frame_reads. by rewrite List.filter_app, length_app. Qed.

Lemma frame_reads_sync_ok t : sync_ok t → frame_reads t = 0.
Proof.
  intros [b Hb|b rest Hb]; [done|]. unfold frame_reads. cbn.
  destruct (Nat.eqb_spec (Z.to_nat (14 - position b)) 14); [lia | done].
Qed.

Lemma frame_reads_sync_fail e t : sync_fail e t → frame_reads t = 0.
Proof. by intros [|b Hb]. Qed.

Lemma frame_reads_failed t : failed_attempt t → frame_reads t = 1.
Proof.
  intros [f s Hf Hs|f s1 s2 Hf Ha H1 H2];
    change (Read 14 f :: ?t) with ([Read 14 f] ++ t);
    rewrite ?frame_reads_app, ?(frame_reads_sync_ok _ Hs),
      ?(frame_reads_sync_ok _ H1), ?(frame_reads_sync_ok _ H2); done.
Qed.

Lemma frame_reads_aborted e t : aborted_attempt e t → frame_reads t = 1.
Proof.
  intros [f s Hf Hs|f s Hf Ha Hs|f s1 s2 Hf Ha H1 H2];
    change (Read 14 f :: ?t) with ([Read 14 f] ++ t);
    rewrite ?frame_reads_app, ?(frame_reads_sync_fail _ _ Hs),
      ?(frame_reads_sync_ok _ H1), ?(frame_reads_sync_fail _ _ H2); done.
Qed.

Lemma frame_reads_concat fs :
  Forall failed_attempt fs → frame_reads (concat fs) = length fs.
Proof.
  induction 1 as [|t fs Ht _ IH]; [done|].
  cbn [concat length]. by rewrite frame_reads_app, IH, frame_reads_failed.
Qed.

Section Retry.

Context {port : Type} `{!Serial port}.

Implicit Types p : port.

(** One iteration of the retry loop, by what the port delivers. *)
Lemma attempts_S n k p :
  Dmm.attempts (S n) k p =
  let '(f, p1) := ser_read 14 p in
  prefixed [Read 14 f]
    (if decide (length f ≠ 14)
     then (Dmm._synchronize ≫= λ _, Dmm.attempts n (k + 1)) p1
     else if aligned f then (Ok (Some (k, f)), p1, [])
     else (Dmm._synchronize ≫= λ _,
           Dmm._synchronize ≫= λ _, Dmm.attempts n (k + 1)) p1).
Proof.
  cbn [Dmm.attempts]. unfold mbind at 1. unfold Dmm.io_bind.
  rewrite ser_read_io_run. unfold Dmm.bytesPerRead.
  change (Z.to_nat 14) with 14.
  destruct (ser_read 14 p) as [f p1]. cbn [fst snd].
  destruct (decide (length f ≠ 14)) as [E|E].
  - rewrite decide_True by lia. done.
  - rewrite decide_False by lia.
    unfold mbind at 1. unfold Dmm.io_bind.
    rewrite checkPositions_run. fold (aligned f).
    destruct (aligned f); [done|].
    unfold mbind, Dmm.io_bind, mret, Dmm.io_ret, prefixed.
    destruct (Dmm._synchronize p1) as [[[[]|e] p2] t1]; [|done].
    destruct (Dmm._synchronize p2) as [[[[]|e] p3] t2];
      [|by rewrite app_nil_r].
    destruct (Dmm.attempts n (k + 1) p3) as [[r p4] t3].
    by rewrite app_nil_r.
Qed.

(** The retry loop: the iterations that failed, then how it ended. *)
Lemma attempts_spec n k p :
  ∃ fs last,
    (Dmm.attempts n k p).2 = concat fs ++ last
    ∧ Forall failed_attempt fs
    ∧ match (Dmm.attempts n k p).1.1 with
      | Ok None => last = [] ∧ length fs = n
      | Ok (Some (k', f)) =>
          length fs < n ∧ k' = (k + Z.of_nat (length fs))%Z
          ∧ last = [Read 14 f] ∧ length f = 14 ∧ aligned f = true
      | Raise e => length fs < n ∧ aborted_attempt e last
      end.
Proof.
  revert k p. induction n as [|n IH]; intros k p.
  { by exists [], []. }
  rewrite attempts_S.
  pose proof (ser_read_length 14 p) as Hlen.
  destruct (ser_read 14 p) as [f p1]. cbn [fst] in Hlen.
  case_decide as Hf.
  - unfold mbind, Dmm.io_bind.
    pose proof (synchronize_outcome p1) as Hs.
    destruct (Dmm._synchronize p1) as [[[[]|e] p2] s].
    + destruct (IH (k + 1)%Z p2) as (fs & last & Ht & Hfs & Hr).
      destruct (Dmm.attempts n (k + 1) p2) as [[r p3] t].
      cbn [fst snd prefixed] in *. subst t.
      exists ((Read 14 f :: s) :: fs), last. split_and!.
      * cbn [concat app]. by rewrite <- ?app_assoc.
      * apply Forall_cons_2; [|done]. apply failed_short; [lia | done].
      * destruct r as [[[k' f']|]|e]; cbn [length].
        -- destruct Hr as (? & -> & ? & ? & ?).
           split_and!; [lia | lia | done..].
        -- destruct Hr as [-> ?]. split; [done | lia].
        -- destruct Hr. split; [lia | done].
    + exists [], (Read 14 f :: s). cbn [fst snd prefixed concat length].
      split_and!; [done | done | lia |].
      apply aborted_short; [lia | done].
  - destruct (aligned f) eqn:Ha.
    + exists [], [Read 14 f]. cbn [fst snd prefixed concat length].
      split_and!; try done; lia.
    + unfold mbind, Dmm.io_bind.
      pose proof (synchronize_outcome p1) as Hs1.
      destruct (Dmm._synchronize p1) as [[[[]|e] p2] s1].
      2:{ exists [], (Read 14 f :: s1).
          cbn [fst snd prefixed concat length].
          split_and!; [done | done | lia |].
          apply aborted_first; [lia | done | done]. }
      pose proof (synchronize_outcome p2) as Hs2.
      destruct (Dmm._synchronize p2) as [[[[]|e] p3] s2].
      2:{ exists [], (Read 14 f :: s1 ++ s2).
          cbn [fst snd prefixed concat length].
          split_and!; [done | done | lia |].
          apply aborted_second; [lia | done | done | done]. }
      destruct (IH (k + 1)%Z p3) as (fs & last & Ht & Hfs & Hr).
      destruct (Dmm.attempts n (k + 1) p3) as [[r p4] t].
      cbn [fst snd prefixed] in *. subst t.
      exists ((Read 14 f :: s1 ++ s2) :: fs), last. split_and!.
      * cbn [concat app]. by rewrite <- ?app_assoc.
      * apply Forall_cons_2; [|done].
        apply failed_misaligned; [lia | done | done | done].
      * destruct r as [[[k' f']|]|e]; cbn [length].
        -- destruct Hr as (? & -> & ? & ? & ?).
           split_and!; [lia | lia | done..].
        -- destruct Hr as [-> ?]. split; [done | lia].
        -- destruct Hr. split; [lia | done].
Qed.

End Retry.

(** C8: [_synchronize] asks the port for one byte.  With no byte it
    raises [DmmNoData]; with a byte at position 0 or 15 it raises
    [DmmInvalidSyncValue], having read nothing more; at position 14 it
    returns, having read nothing more; at a position [p] from 1 to 13 it
    asks once for the remaining [14 - p] bytes and returns, however few of
    them arrive. *)
Theorem synchronize_contract {port : Type} `{!Serial port} (p : port) :
  ∃ v p1, ser_read 1 p = (v, p1)
    ∧ match v with
      | [] => Dmm._synchronize p = (Raise DmmNoData, p1, [Read 1 []])
      | [b] =>
          (0 ≤ position b ≤ 15)%Z
          ∧ (position b = 0%Z ∨ position b = 15%Z →
             Dmm._synchronize p =
             (Raise DmmInvalidSyncValue, p1, [Read 1 [b]]))
          ∧ (position b = 14%Z →
             Dmm._synchronize p = (Ok (), p1, [Read 1 [b]]))
          ∧ ((1 ≤ position b ≤ 13)%Z →
             ∃ rest p2,
               ser_read (Z.to_nat (14 - position b)) p1 = (rest, p2)
               ∧ (Z.of_nat (length rest) ≤ 14 - position b)%Z
               ∧ Dmm._synchronize p =
                 (Ok (), p2,
                  [Read 1 [b]; Read (Z.to_nat (14 - position b)) rest]))
      | _ => False
      end.
Proof.
  pose proof (synchronize_run p) as Hrun.
  pose proof (ser_read_length 1 p) as Hlen.
  destruct (ser_read 1 p) as [v p1]. cbn [fst] in Hlen.
  exists v, p1. split; [done|].
  destruct v as [|b [|b' v]]; [done | | cbn [length] in Hlen; lia].
  split; [apply position_range|]. split; [|split].
  - intros H. by rewrite decide_True in Hrun.
  - intros H. rewrite decide_False, decide_True in Hrun by lia. done.
  - intros H. rewrite !decide_False in Hrun by lia.
    pose proof (ser_read_length (Z.to_nat (14 - position b)) p1) as Hrest.
    destruct (ser_read _ p1) as [rest p2]. cbn [fst] in Hrest.
    exists rest, p2. split; [done|]. split; [lia | done].
Qed.

(** C7 (amended): the reads of [read] are those of at most [retries]
    failed iterations, each a frame read that is short and then one
    resynchronisation, or full but misaligned and then two, followed by
    how it ended.  It returns the object decoded from the first aligned
    frame, right after reading it; it raises [DmmReadFailure] when
    [retries] iterations have failed; or a resynchronisation raises
    [DmmNoData] or [DmmInvalidSyncValue] and that exception leaves [read].
    Nothing else is raised, and no more than [retries] frames are read. *)
Theorem read_contract {port : Type} `{!Serial port} (self : Dmm.t) (p : port) :
  ∃ fs last,
    (Dmm.read self p).2 = concat fs ++ last
    ∧ Forall failed_attempt fs
    ∧ frame_reads (Dmm.read self p).2 ≤ Z.to_nat (Dmm.retries self)
    ∧ match (Dmm.read self p).1.1 with
      | Ok d =>
          length fs < Z.to_nat (Dmm.retries self)
          ∧ ∃ f, last = [Read 14 f] ∧ length f = 14 ∧ aligned f = true
              ∧ Dmm.decode (Z.of_nat (length fs)) f = Ok d
              ∧ DmmValue.readErrors d = Z.of_nat (length fs)
              ∧ DmmValue.rawBytes d = f
      | Raise e =>
          (e = DmmReadFailure ∧ last = []
           ∧ length fs = Z.to_nat (Dmm.retries self))
          ∨ ((e = DmmNoData ∨ e = DmmInvalidSyncValue)
             ∧ length fs < Z.to_nat (Dmm.retries self)
             ∧ aborted_attempt e last)
      end.
Proof.
  unfold Dmm.read, mbind, Dmm.io_bind.
  destruct (attempts_spec (Z.to_nat (Dmm.retries self)) 0 p)
    as (fs & last & Ht & Hfs & Hr).
  destruct (Dmm.attempts _ 0 p) as [[r p1] t]. cbn [fst snd] in Ht, Hr.
  subst t. exists fs, last.
  destruct r as [[[k f]|]|e].
  - destruct Hr as (Hn & -> & -> & Hlen & Ha).
    destruct (decode_total (0 + Z.of_nat (length fs)) f Hlen)
      as (d & Hd & Hraw & Herr).
    unfold Dmm.lift. rewrite Hd. cbn [fst snd]. rewrite app_nil_r.
    split_and!; [done | done | | done |].
    + rewrite frame_reads_app, frame_reads_concat by done.
      change (frame_reads [Read 14 f]) with 1. lia.
    + exists f. by rewrite Z.add_0_l in *.
  - destruct Hr as [-> Hn]. cbn [fst snd Dmm.raise Dmm.lift].
    rewrite !app_nil_r. split_and!; [done | done | | by left].
    rewrite frame_reads_concat by done. lia.
  - destruct Hr as [Hn Hab]. cbn [fst snd]. split_and!; [done | done | |].
    + rewrite frame_reads_app, frame_reads_concat,
        (frame_reads_aborted _ _ Hab) by done. lia.
    + right. split_and!; [|done..].
      destruct Hab as [?? _ Hs|?? _ _ Hs|??? _ _ _ Hs]; destruct Hs; auto.
Qed.

(** C7, as stated, fails on three short frames, each a lone byte, with
    the retry limit 3: two resynchronisations find a marker byte, the
    third finds a silent line, and [read] raises [DmmNoData], not
    [DmmReadFailure]. *)
Lemma short_frames_then_silence :
  Dmm.read (Dmm.Build 3) ([[x35]; [x35]; [x35]; [x35]; [x35]] : Script.t) =
  (Raise DmmNoData, [],
   [Read 14 [x35]; Read 1 [x35]; Read 11 [];
    Read 14 [x35]; Read 1 [x35]; Read 11 [];
    Read 14 [x35]; Read 1 []]).
Proof. by vm_compute. Qed.

(** Scenario 4 with a device that keeps sending: three short frames, each
    followed by a marker byte, and [read] raises [DmmReadFailure] after
    the third. *)
Example short_frames_exhaust_retries :
  Dmm.read (Dmm.Build 3)
    ([[x35]; [x35]; [x35]; [x35]; [x35]; [x35]] : Script.t) =
  (Raise DmmReadFailure, [],
   [Read 14 [x35]; Read 1 [x35]; Read 11 [];
    Read 14 [x35]; Read 1 [x35]; Read 11 [];
    Read 14 [x35]; Read 1 [x35]; Read 11 []]).
Proof. by vm_compute. Qed.

Lemma script_read_app (l more : list byte) bursts :
  Script.read (length l) ((l ++ more) :: bursts) = (l, more :: bursts).
Proof.
  unfold Script.read. rewrite decide_True by (rewrite length_app; lia).
  by rewrite take_app_length, drop_app_length.
Qed.

(** On a steady stream a resynchronisation takes the marker byte and the
    rest of its frame. *)
Lemma synchronize_script b junk more bursts :
  (1 ≤ position b ≤ 14)%Z → length junk = Z.to_nat (14 - position b) →
  Dmm._synchronize (((b :: junk) ++ more) :: bursts : Script.t) =
  (Ok (), more :: bursts,
   Read 1 [b]
     :: (if decide (position b = 14)%Z then []
         else [Read (Z.to_nat (14 - position b)) junk])).
Proof.
  intros Hb Hj. rewrite synchronize_run.
  change (ser_read 1 (((b :: junk) ++ more) :: bursts))
    with (Script.read (length [b]) (([b] ++ junk ++ more) :: bursts)).
  rewrite script_read_app. rewrite decide_False by lia.
  case_decide as E.
  - rewrite E in Hj. by destruct junk.
  - rewrite <- Hj. change ser_read with Script.read.
    by rewrite script_read_app.
Qed.

(** C10: an iteration of [read] that gets a full frame failing the
    position check runs [_synchronize] twice before the next iteration;
    on a steady stream the first takes the marker byte and the rest of its
    frame, and the second takes the whole aligned frame that follows. *)
Theorem misaligned_attempt_resyncs_twice {port : Type} `{!Serial port}
    (n : nat) (k : Z) (p p1 : port) (f : list byte)
    (b : byte) (junk frame more : list byte) (bursts : list (list byte)) :
  ser_read 14 p = (f, p1) → length f = 14 → aligned f = false →
  (1 ≤ position b ≤ 13)%Z → length junk = Z.to_nat (14 - position b) →
  length frame = 14 → aligned frame = true →
  Dmm.checkPositions f 1 p1 = (Dmm._synchronize;; mret false) p1
  ∧ Dmm.attempts (S n) k p =
    prefixed [Read 14 f]
      ((Dmm._synchronize;; Dmm._synchronize;; Dmm.attempts n (k + 1)) p1)
  ∧ (Dmm._synchronize;; Dmm._synchronize)
      (((b :: junk) ++ frame ++ more) :: bursts : Script.t) =
    (Ok (), more :: bursts,
     [Read 1 [b]; Read (Z.to_nat (14 - position b)) junk;
      Read 1 (take 1 frame); Read 13 (drop 1 frame)]).
Proof.
  intros Hp Hf Ha Hb Hj Hfr Hal. split; [|split].
  - rewrite checkPositions_run. fold (aligned f). by rewrite Ha.
  - rewrite attempts_S, Hp, decide_False, Ha by lia. done.
  - destruct frame as [|b' rest]; [done|].
    assert (position b' = 1%Z) as Hb'.
    { unfold aligned in Hal. cbn [aligned_from] in Hal.
      apply andb_true_iff in Hal as [?%Z.eqb_eq _]. done. }
    cbn [length] in Hfr.
    erewrite run_bind_Ok; [|by apply synchronize_script; [lia|]].
    change ((b' :: rest) ++ more) with ((b' :: rest) ++ more).
    rewrite (synchronize_script b' rest more bursts) by (rewrite Hb'; lia).
    rewrite !decide_False by lia. rewrite Hb'. done.
Qed.

Lemma misaligned_attempt_resyncs_twice_witness :
  Dmm.checkPositions ([x35; x4d] ++ take 12 millivolts_frame) 1
    ([drop 12 millivolts_frame ++ millivolts_frame
        ++ millivolts_frame] : Script.t) =
    (Dmm._synchronize;; mret false)
      ([drop 12 millivolts_frame ++ millivolts_frame
          ++ millivolts_frame] : Script.t)
  ∧ Dmm.attempts 3 0
    ([[x35; x4d] ++ millivolts_frame ++ millivolts_frame
        ++ millivolts_frame] : Script.t) =
    prefixed [Read 14 ([x35; x4d] ++ take 12 millivolts_frame)]
      ((Dmm._synchronize;; Dmm._synchronize;; Dmm.attempts 2 (0 + 1))
         ([drop 12 millivolts_frame ++ millivolts_frame
             ++ millivolts_frame] : Script.t))
  ∧ (Dmm._synchronize;; Dmm._synchronize)
      ([([xd4; xe0]) ++ millivolts_frame ++ millivolts_frame] : Script.t) =
    (Ok (), [millivolts_frame],
     [Read 1 [xd4]; Read (Z.to_nat (14 - position xd4)) [xe0];
      Read 1 (take 1 millivolts_frame);
      Read 13 (drop 1 millivolts_frame)]).
Proof.
  apply (misaligned_attempt_resyncs_twice (port := Script.t) 2 0
           [[x35; x4d] ++ millivolts_frame ++ millivolts_frame
              ++ millivolts_frame]
           [drop 12 millivolts_frame ++ millivolts_frame
              ++ millivolts_frame]
           ([x35; x4d] ++ take 12 millivolts_frame)
           xd4 [xe0] millivolts_frame millivolts_frame []);
    first [reflexivity | by vm_compute].
Defined.

(** Scenario 1 end to end: digits [-1.234] with [milli] and [volts]. *)
Example millivolts_frame_reading :
  ∃ d, Dmm.decode 0 millivolts_frame = Ok d
    ∧ DmmValue.saneValue d = true
    ∧ DmmValue.text d = "-1.234 millivolts"
    ∧ DmmValue.numericVal d = PyFloat.of_string "-0.001234".
Proof. vm_compute. eexists. repeat split. Qed.

(** * Further properties *)

Lemma testbit_top k b :
  (0 ≤ k)%Z → (0 ≤ b < 2 ^ (k + 1))%Z →
  Z.testbit b k = negb (b / 2 ^ k =? 0)%Z.
Proof.
  intros Hk Hb.
  rewrite <- (Z.add_0_l k) at 1.
  rewrite <- Z.shiftr_spec, Z.shiftr_div_pow2, Z.bit0_odd by lia.
  assert (0 < 2 ^ k)%Z by (apply Z.pow_pos_nonneg; lia).
  assert (0 ≤ b / 2 ^ k < 2)%Z as Hq.
  { split; [apply Z.div_pos; lia|].
    apply Z.div_lt_upper_bound; [lia|].
    rewrite Z.pow_add_r, Z.pow_1_r in Hb by lia. lia. }
  assert (b / 2 ^ k = 0 ∨ b / 2 ^ k = 1)%Z as [->| ->] by lia; done.
Qed.

Lemma selected_from_ext k b1 b2 row :
  (∀ j, (j ≤ k)%Z → Z.testbit b1 j = Z.testbit b2 j) →
  selected_from k b1 row = selected_from k b2 row.
Proof.
  revert k. induction row as [|e row IH]; intros k H; [done|].
  cbn [selected_from]. rewrite (H k) by lia. f_equal.
  apply IH. intros j Hj. apply H. lia.
Qed.

Lemma readAttribBits_zero row b a :
  Dmm.readAttribBits row b 0 a =
  if decide (0 < length row) then Raise ZeroDivisionError else Ok a.
Proof. by destruct row as [|[??] ?]. Qed.

Lemma readAttribBits_selects row k b a :
  (0 ≤ k)%Z → (0 ≤ b < 2 ^ (k + 1))%Z →
  Dmm.readAttribBits row b (2 ^ k) a =
  a' ← push_all a (selected_from k b (take (Z.to_nat (k + 1)) row));
  if decide (Z.to_nat (k + 1) < length row) then Raise ZeroDivisionError
  else Ok a'.
Proof.
  revert k b a. induction row as [|[attr val] row IH]; intros k b a Hk Hb.
  { rewrite take_nil. cbn [length selected_from push_all mbind result_bind].
    by rewrite decide_False by lia. }
  replace (Z.to_nat (k + 1)) with (S (Z.to_nat k)) by lia.
  cbn [Dmm.readAttribBits take selected_from length].
  assert (0 < 2 ^ k)%Z as Hpos by (apply Z.pow_pos_nonneg; lia).
  rewrite decide_False by lia.
  rewrite (testbit_top k b) by done.
  assert (2 ^ (k + 1) = 2 * 2 ^ k)%Z as Hdouble.
  { rewrite Z.pow_add_r, Z.pow_1_r by lia. lia. }
  (* what is left of the row, at the next bit value *)
  assert (∀ b' a', (0 ≤ b' < 2 ^ k)%Z →
            Dmm.readAttribBits row b' (2 ^ k / 2) a' =
            a'' ← push_all a' (selected_from (k - 1) b' (take (Z.to_nat k) row));
            if decide (S (Z.to_nat k) < S (length row))
            then Raise ZeroDivisionError else Ok a'') as Hrest.
  { intros b' a' Hb'. destruct (decide (k = 0%Z)) as [->|Hk0].
    - change (2 ^ 0 / 2)%Z with 0%Z. rewrite readAttribBits_zero.
      change (Z.to_nat 0) with 0. rewrite take_0.
      cbn [selected_from push_all mbind result_bind].
      destruct row; [done|]. cbn [length].
      by rewrite !decide_True by lia.
    - replace (2 ^ k / 2)%Z with (2 ^ (k - 1))%Z.
      2:{ replace k with (k - 1 + 1)%Z at 2 by lia.
          rewrite Z.pow_add_r, Z.pow_1_r by lia. symmetry.
          apply Z.div_mul. lia. }
      rewrite IH by (replace (k - 1 + 1)%Z with k by lia; lia).
      replace (k - 1 + 1)%Z with k by lia.
      destruct (push_all _ _); cbn [mbind result_bind]; [|done].
      destruct (decide (Z.to_nat k < length row)).
      + by rewrite decide_True by lia.
      + by rewrite decide_False by lia. }
  destruct (Z.eqb_spec (b / 2 ^ k) 0) as [E|E]; cbn [negb app].
  - rewrite decide_False by lia.
    apply Hrest. apply Z.div_small_iff in E as [?|?]; lia.
  - rewrite decide_True by lia.
    cbn [push_all]. unfold push, getitem. cbn [fst snd].
    destruct (a !! attr) as [l|]; cbn [mbind result_bind]; [|done].
    assert (2 ^ k ≤ b)%Z.
    { destruct (Z.lt_ge_cases b (2 ^ k)); [|done].
      rewrite Z.div_small in E by lia. done. }
    rewrite Hrest by lia. do 2 f_equal.
    apply selected_from_ext. intros j Hj.
    replace (b - 2 ^ k)%Z with (b mod 2 ^ k)%Z.
    + destruct (Z.neg_nonneg_cases j).
      * by rewrite !Z.testbit_neg_r.
      * apply Z.mod_pow2_bits_low. lia.
    + symmetry. apply Z.mod_unique_pos with (q := 1%Z); lia.
Qed.

(** X1: [_readAttribByte] appends, in the order of the row, exactly the
    names of the first four entries whose bit is set in the low nibble of
    the byte, the first entry being bit 3, and raises [KeyError] at the
    first of them whose category is not a key; a row of more than four
    entries then makes it raise [ZeroDivisionError] at the fifth. *)
Theorem readAttribByte_selects byte row a :
  Dmm._readAttribByte byte row a =
  a' ← push_all a (selected (byte mod 16) (take 4 row));
  if decide (4 < length row) then Raise ZeroDivisionError else Ok a'.
Proof.
  unfold Dmm._readAttribByte, selected.
  apply (readAttribBits_selects row 3); [lia|].
  apply (Z.mod_pos_bound byte 16). lia.
Qed.

Lemma push_all_app a es1 es2 :
  push_all a (es1 ++ es2) = a' ← push_all a es1; push_all a' es2.
Proof.
  revert a. induction es1 as [|e es1 IH]; intros a; [done|].
  cbn [app push_all]. destruct (push a e); cbn [mbind result_bind]; [|done].
  apply IH.
Qed.

Lemma readAttribByte_row byte row a :
  length row ≤ 4 →
  Dmm._readAttribByte byte row a = push_all a (selected (byte mod 16) row).
Proof.
  intros Hlen. unfold Dmm._readAttribByte, selected.
  rewrite (readAttribBits_selects row 3), take_ge;
    [| cbn; lia | lia | apply (Z.mod_pos_bound byte 16); lia].
  destruct (push_all a _); cbn [mbind result_bind]; [|done].
  rewrite decide_False; [done | cbn; lia].
Qed.

(** The attribute loop of [read] is one run of appends. *)
Lemma readAttribs_push_all items bytes a :
  Forall (λ '(k, row),
            (1 ≤ k ≤ Z.of_nat (length bytes))%Z ∧ length row ≤ 4) items →
  Dmm.readAttribs items bytes a = push_all a (frame_entries items bytes).
Proof.
  intros H. revert a. induction H as [|[k row] items [Hk Hrow] _ IH]; intros a.
  { done. }
  cbn [Dmm.readAttribs frame_entries flat_map].
  fold (frame_entries items bytes).
  destruct (bytes_getitem_ok bytes (k - 1)) as (b & Hb & ->); [lia|].
  cbn [mbind result_bind]. rewrite readAttribByte_row by done.
  rewrite push_all_app. unfold byte_at. rewrite Hb.
  destruct (push_all a _); cbn [mbind result_bind]; [|done].
  apply IH.
Qed.

Lemma names_in_cons cat e es :
  names_in cat (e :: es) =
  (if String.eqb e.1 cat then [e.2] else []) ++ names_in cat es.
Proof. unfold names_in. cbn [List.filter]. by destruct (String.eqb _ _). Qed.

Lemma names_in_app cat es1 es2 :
  names_in cat (es1 ++ es2) = names_in cat es1 ++ names_in cat es2.
Proof. unfold names_in. by rewrite List.filter_app, map_app. Qed.

(** Appending to a dictionary that has every key asked for: each list
    grows by the names filed under its key. *)
Lemma push_all_lookup a es :
  Forall (λ e, is_Some (a !! e.1)) es →
  ∃ a', push_all a es = Ok a'
    ∧ ∀ cat, a' !! cat = (λ l, l ++ names_in cat es) <$> a !! cat.
Proof.
  revert a. induction es as [|[attr val] es IH]; intros a H.
  { exists a. split; [done|]. intros cat. unfold names_in. cbn.
    destruct (a !! cat); cbn; [by rewrite app_nil_r | done]. }
  apply Forall_cons in H as [[l Hl] H]. cbn [fst] in Hl.
  cbn [push_all]. unfold push, getitem. cbn [fst snd]. rewrite Hl.
  cbn [mbind result_bind].
  destruct (IH (<[attr := l ++ [val]]> a)) as (a' & -> & Ha').
  { eapply Forall_impl; [exact H|]. intros e He. cbn beta in *.
    rewrite lookup_insert_is_Some. destruct (decide (attr = e.1)); auto. }
  exists a'. split; [done|]. intros cat. rewrite Ha', names_in_cons.
  cbn [fst snd]. destruct (String.eqb_spec attr cat) as [->|Hne].
  - rewrite lookup_insert_eq, Hl. cbn. by rewrite <- app_assoc.
  - rewrite lookup_insert_ne by done. done.
Qed.

Lemma selected_from_in k b row e : e ∈ selected_from k b row → e ∈ row.
Proof.
  revert k. induction row as [|e' row IH]; intros k; cbn [selected_from].
  { by intros ?%not_elem_of_nil. }
  rewrite elem_of_app, elem_of_cons. intros [He|He].
  - destruct (Z.testbit b k); [|by apply not_elem_of_nil in He].
    apply list_elem_of_singleton in He. by left.
  - right. by eapply IH.
Qed.

Lemma frame_entries_in items bytes e :
  e ∈ frame_entries items bytes → ∃ k row, (k, row) ∈ items ∧ e ∈ row.
Proof.
  unfold frame_entries. rewrite list_elem_of_In, in_flat_map.
  intros ([k row] & Hin & He). exists k, row.
  rewrite !list_elem_of_In in *. split; [done|].
  apply list_elem_of_In. eapply selected_from_in. by apply list_elem_of_In.
Qed.

Lemma names_in_elem cat es s :
  s ∈ names_in cat es ↔ (cat, s) ∈ es.
Proof.
  unfold names_in. rewrite list_elem_of_fmap. split.
  - intros ([attr val] & -> & He). apply list_elem_of_In in He.
    apply filter_In in He as [He Hc]. cbn [fst snd] in *.
    apply String.eqb_eq in Hc as <-. by apply list_elem_of_In.
  - intros He. exists (cat, s). split; [done|].
    apply list_elem_of_In, filter_In. split; [by apply list_elem_of_In|].
    apply String.eqb_refl.
Qed.

(** The dictionary [read] builds from a full frame. *)
Lemma frame_attribs bytes :
  length bytes = 14 →
  ∃ a, Dmm.readAttribs Dmm.bits bytes Dmm._initAttribs = Ok a
    ∧ (∀ cat, cat ∈ ["flags"; "scale"; "measure"; "other"] →
         a !! cat = Some (names_in cat (frame_entries Dmm.bits bytes)))
    ∧ scale_known (names_in "scale" (frame_entries Dmm.bits bytes)) = true.
Proof.
  intros Hlen.
  assert (∀ e, e ∈ frame_entries Dmm.bits bytes → entry_ok e) as Hok.
  { intros e (k & row & Hin & He)%frame_entries_in.
    pose proof bits_ok as Hb. rewrite Forall_forall in Hb.
    destruct (Hb _ Hin) as (_ & Hrow & _).
    rewrite Forall_forall in Hrow. by apply Hrow. }
  rewrite readAttribs_push_all.
  2:{ rewrite Hlen. eapply Forall_impl; [apply bits_ok|].
      intros [k row] (? & _ & ?). done. }
  destruct (push_all_lookup Dmm._initAttribs (frame_entries Dmm.bits bytes))
    as (a & -> & Ha).
  { apply Forall_forall. intros e [He _]%Hok.
    apply list_elem_of_In in He.
    repeat destruct He as [<-|He]; [..|done]; by eexists. }
  exists a. split_and!; [done | |].
  - intros cat Hcat. rewrite Ha. apply list_elem_of_In in Hcat.
    repeat destruct Hcat as [<-|Hcat]; [..|done]; done.
  - destruct (names_in "scale" _) as [|s [|??]] eqn:E; try done.
    cbn [scale_known]. apply bool_decide_eq_true.
    assert (("scale", s) ∈ frame_entries Dmm.bits bytes) as Hs.
    { apply names_in_elem. rewrite E. by left. }
    apply Hok in Hs as [_ Hs]. by apply Hs.
Qed.

(** X2: the object built from a full frame lists, under each category,
    the names of that category whose bit is set in the frame, in the
    order of the rows of [bits] and of the entries of each row. *)
Theorem decode_flag_lists readAttempt bytes :
  length bytes = 14 →
  ∃ d, Dmm.decode readAttempt bytes = Ok d
    ∧ DmmValue.flags d = names_in "flags" (frame_entries Dmm.bits bytes)
    ∧ DmmValue.scaleFlags d =
        names_in "scale" (frame_entries Dmm.bits bytes)
    ∧ DmmValue.measurementFlags d =
        names_in "measure" (frame_entries Dmm.bits bytes)
    ∧ DmmValue.reservedFlags d =
        names_in "other" (frame_entries Dmm.bits bytes).
Proof.
  intros Hlen. unfold Dmm.decode.
  destruct (readDigits_total Dmm.digits bytes "") as [v ->].
  { rewrite Hlen. unfold Dmm.digits.
    repeat (apply Forall_cons_2; [lia|]). apply Forall_nil_2. }
  destruct (frame_attribs bytes Hlen) as (a & -> & Ha & Hk).
  cbn [mbind result_bind].
  rewrite (init_eq v a readAttempt bytes _ _ _ _
             (Ha "flags" ltac:(repeat constructor))
             (Ha "scale" ltac:(repeat constructor))
             (Ha "measure" ltac:(repeat constructor))
             (Ha "other" ltac:(repeat constructor))
             Hk).
  by eexists.
Qed.

Lemma decode_flag_lists_witness :
  ∃ d, Dmm.decode 0 millivolts_frame = Ok d
    ∧ DmmValue.flags d =
        names_in "flags" (frame_entries Dmm.bits millivolts_frame)
    ∧ DmmValue.scaleFlags d =
        names_in "scale" (frame_entries Dmm.bits millivolts_frame)
    ∧ DmmValue.measurementFlags d =
        names_in "measure" (frame_entries Dmm.bits millivolts_frame)
    ∧ DmmValue.reservedFlags d =
        names_in "other" (frame_entries Dmm.bits millivolts_frame).
Proof. apply (decode_flag_lists 0 millivolts_frame). reflexivity. Defined.

Lemma sublist_selected_from k b row : selected_from k b row `sublist_of` row.
Proof.
  revert k. induction row as [|e row IH]; intros k; cbn [selected_from].
  { done. }
  destruct (Z.testbit b k); cbn [app].
  - by apply sublist_skip.
  - by apply sublist_cons.
Qed.

Lemma sublist_names_in cat es1 es2 :
  es1 `sublist_of` es2 → names_in cat es1 `sublist_of` names_in cat es2.
Proof.
  induction 1 as [|e es1 es2 _ IH|e es1 es2 _ IH]; [done|..];
    rewrite ?names_in_cons; destruct (String.eqb e.1 cat); cbn [app];
    try done; by constructor.
Qed.

Lemma names_in_flat_map {A} cat (f : A → list (string * string)) l :
  names_in cat (flat_map f l) = flat_map (λ x, names_in cat (f x)) l.
Proof.
  induction l as [|x l IH]; [done|].
  cbn [flat_map]. by rewrite names_in_app, IH.
Qed.

Lemma frame_names_sublist cat bytes :
  names_in cat (frame_entries Dmm.bits bytes) `sublist_of` vocabulary cat.
Proof.
  unfold frame_entries, vocabulary. rewrite names_in_flat_map.
  induction Dmm.bits as [|[k row] items IH]; [done|].
  cbn [flat_map]. apply sublist_app; [|done].
  apply (sublist_names_in cat), sublist_selected_from.
Qed.

(** X3: each flag list of an object built from a full frame is a
    sublist of the names [bits] files under its category: a name occurs at
    most once, and the names keep the order of the table. *)
Theorem decode_flag_lists_sublist readAttempt bytes :
  length bytes = 14 →
  ∃ d, Dmm.decode readAttempt bytes = Ok d
    ∧ DmmValue.flags d `sublist_of` vocabulary "flags"
    ∧ DmmValue.scaleFlags d `sublist_of` vocabulary "scale"
    ∧ DmmValue.measurementFlags d `sublist_of` vocabulary "measure"
    ∧ DmmValue.reservedFlags d `sublist_of` vocabulary "other"
    ∧ NoDup (DmmValue.flags d) ∧ NoDup (DmmValue.scaleFlags d)
    ∧ NoDup (DmmValue.measurementFlags d)
    ∧ NoDup (DmmValue.reservedFlags d).
Proof.
  intros Hlen. unfold Dmm.decode.
  destruct (readDigits_total Dmm.digits bytes "") as [v ->].
  { rewrite Hlen. unfold Dmm.digits.
    repeat (apply Forall_cons_2; [lia|]). apply Forall_nil_2. }
  destruct (frame_attribs bytes Hlen) as (a & -> & Ha & Hk).
  cbn [mbind result_bind].
  rewrite (init_eq v a readAttempt bytes _ _ _ _
             (Ha "flags" ltac:(repeat constructor))
             (Ha "scale" ltac:(repeat constructor))
             (Ha "measure" ltac:(repeat constructor))
             (Ha "other" ltac:(repeat constructor))
             Hk).
  eexists. split; [done|]. project.
  assert (∀ cat, NoDup (vocabulary cat) →
            NoDup (names_in cat (frame_entries Dmm.bits bytes))) as Hnd.
  { intros cat Hv. eapply sublist_NoDup; [done | apply frame_names_sublist]. }
  split_and!; try apply frame_names_sublist; apply Hnd;
    apply (bool_decide_unpack _); by vm_compute.
Qed.

Lemma decode_flag_lists_sublist_witness :
  ∃ d, Dmm.decode 0 acdc_frame = Ok d
    ∧ DmmValue.flags d `sublist_of` vocabulary "flags"
    ∧ DmmValue.scaleFlags d `sublist_of` vocabulary "scale"
    ∧ DmmValue.measurementFlags d `sublist_of` vocabulary "measure"
    ∧ DmmValue.reservedFlags d `sublist_of` vocabulary "other"
    ∧ NoDup (DmmValue.flags d) ∧ NoDup (DmmValue.scaleFlags d)
    ∧ NoDup (DmmValue.measurementFlags d)
    ∧ NoDup (DmmValue.reservedFlags d).
Proof. apply (decode_flag_lists_sublist 0 acdc_frame). reflexivity. Defined.

(** X4: the object is sane exactly when all four checks pass: not both
    [AC] and [DC], at most one scale flag, exactly one measurement flag,
    and a digit string without [X] and with at most one point. *)
Theorem sane_iff_checks v a re rb fl sc ms ot :
  a !! "flags" = Some fl → a !! "scale" = Some sc →
  a !! "measure" = Some ms → a !! "other" = Some ot →
  scale_known sc = true →
  ∃ d, DmmValue.init v a re rb = Ok d
    ∧ (DmmValue.saneValue d = true ↔
       ¬ ("AC" ∈ fl ∧ "DC" ∈ fl) ∧ length sc ≤ 1 ∧ length ms = 1
       ∧ PyStr.contains "X" v = false ∧ PyStr.count "." v ≤ 1).
Proof.
  intros Hf Hs Hm Ho Hk. rewrite (init_eq _ _ _ _ _ _ _ _ Hf Hs Hm Ho Hk).
  eexists; split; [reflexivity|]. project.
  unfold sane_of, flags_sane, val_sane.
  rewrite !andb_true_iff, !negb_true_iff, andb_false_iff, !Nat.ltb_ge,
    bool_decide_eq_true, !mem_false.
  split.
  - intros [[[Hac ?] ?] [? ?]]. split_and!; try done.
    intros [? ?]. by destruct Hac.
  - intros (Hac & ? & ? & ? & ?). split_and!; try done.
    destruct (decide ("AC" ∈ fl)); [|by left].
    destruct (decide ("DC" ∈ fl)); [|by right]. by destruct Hac.
Qed.

Lemma sane_iff_checks_witness :
  ∃ d, DmmValue.init "-1.234" (attribs_of ["AUTO"] ["milli"] ["volts"] [])
         0 [] = Ok d
    ∧ (DmmValue.saneValue d = true ↔
       ¬ ("AC" ∈ ["AUTO"] ∧ "DC" ∈ ["AUTO"]) ∧ length ["milli"] ≤ 1
       ∧ length ["volts"] = 1
       ∧ PyStr.contains "X" "-1.234" = false
       ∧ PyStr.count "." "-1.234" ≤ 1).
Proof.
  apply (sane_iff_checks "-1.234" _ 0 [] ["AUTO"] ["milli"] ["volts"] []);
    reflexivity.
Defined.

(** X5: the constructor raises nothing but [KeyError], and that exactly
    when the dictionary lacks one of its four keys or the only scale flag
    is not a name of the scale table; two or more unknown scale flags are
    not looked up. *)
Theorem init_raises_only_KeyError v a re rb :
  match DmmValue.init v a re rb with
  | Ok d =>
      a !! "flags" = Some (DmmValue.flags d)
      ∧ a !! "scale" = Some (DmmValue.scaleFlags d)
      ∧ a !! "measure" = Some (DmmValue.measurementFlags d)
      ∧ a !! "other" = Some (DmmValue.reservedFlags d)
      ∧ scale_known (DmmValue.scaleFlags d) = true
  | Raise e =>
      e = KeyError
      ∧ (a !! "flags" = None ∨ a !! "scale" = None
         ∨ a !! "measure" = None ∨ a !! "other" = None
         ∨ ∃ s, a !! "scale" = Some [s] ∧ DmmValue.scaleTable !! s = None)
  end.
Proof.
  destruct (a !! "flags") as [fl|] eqn:Hf.
  2:{ unfold DmmValue.init, getitem. rewrite Hf. cbn. auto. }
  destruct (a !! "scale") as [sc|] eqn:Hs.
  2:{ unfold DmmValue.init, getitem. rewrite Hf, Hs. cbn. auto. }
  destruct (a !! "measure") as [ms|] eqn:Hm.
  2:{ unfold DmmValue.init, getitem. rewrite Hf, Hs, Hm. cbn. auto. }
  destruct (a !! "other") as [ot|] eqn:Ho.
  2:{ unfold DmmValue.init, getitem. rewrite Hf, Hs, Hm, Ho. cbn.
      split; [done|]. auto. }
  destruct (scale_known sc) eqn:Hk.
  - rewrite (init_eq _ _ _ _ _ _ _ _ Hf Hs Hm Ho Hk). project. done.
  - destruct sc as [|s [|??]]; try done. cbn [scale_known] in Hk.
    apply bool_decide_eq_false in Hk.
    assert (DmmValue.scaleTable !! s = None) as Hnone.
    { destruct (DmmValue.scaleTable !! s) eqn:E; [|done].
      destruct Hk. by eexists. }
    unfold DmmValue.init, getitem. rewrite Hf, Hs, Hm, Ho.
    cbn [mbind result_bind]. rewrite processFlags_Build.
    unfold DmmValue.processScale, getitem.
    cbn [DmmValue.scaleFlags DmmValue.set_scale DmmValue.set_multiplier
         DmmValue.scale length Nat.ltb Nat.leb].
    rewrite Hnone. cbn [mbind result_bind].
    split; [done|]. do 4 right. exists s. by split.
Qed.

(** X6: [REL delta] among the flags sets [delta] and the prefix
    ["delta "], which begins the text of a sane object; and [DC] among the
    flags is what [ACDC] records, whether or not [AC] is there too. *)
Theorem delta_and_dc_precedence v a re rb fl sc ms ot :
  a !! "flags" = Some fl → a !! "scale" = Some sc →
  a !! "measure" = Some ms → a !! "other" = Some ot →
  scale_known sc = true →
  ∃ d, DmmValue.init v a re rb = Ok d
    ∧ ("REL delta" ∈ fl →
       DmmValue.delta d = true ∧ DmmValue.deltaText d = "delta "
       ∧ (DmmValue.saneValue d = true →
          ∃ rest, DmmValue.text d = "delta " +:+ rest))
    ∧ ("REL delta" ∉ fl →
       DmmValue.delta d = false ∧ DmmValue.deltaText d = "")
    ∧ ("DC" ∈ fl →
       DmmValue.ACDC d = Some "DC" ∧ DmmValue.ACDCText d = " DC").
Proof.
  intros Hf Hs Hm Ho Hk. rewrite (init_eq _ _ _ _ _ _ _ _ Hf Hs Hm Ho Hk).
  eexists; split; [reflexivity|]. project.
  unfold text_of, delta_of, suffix_of, acdc_of. split_and!.
  - intros Hd%mem_true. rewrite Hd. split_and!; [done..|].
    intros ->. rewrite !append_assoc. eexists. reflexivity.
  - intros Hd%mem_false. by rewrite Hd.
  - intros Hdc%mem_true. by rewrite Hdc.
Qed.

Lemma delta_and_dc_precedence_witness :
  ∃ d, DmmValue.init "-1.234"
         (attribs_of ["AC"; "DC"; "REL delta"] [] ["volts"] []) 0 [] = Ok d
    ∧ ("REL delta" ∈ ["AC"; "DC"; "REL delta"] →
       DmmValue.delta d = true ∧ DmmValue.deltaText d = "delta "
       ∧ (DmmValue.saneValue d = true →
          ∃ rest, DmmValue.text d = "delta " +:+ rest))
    ∧ ("REL delta" ∉ ["AC"; "DC"; "REL delta"] →
       DmmValue.delta d = false ∧ DmmValue.deltaText d = "")
    ∧ ("DC" ∈ ["AC"; "DC"; "REL delta"] →
       DmmValue.ACDC d = Some "DC" ∧ DmmValue.ACDCText d = " DC").
Proof.
  apply (delta_and_dc_precedence "-1.234" _ 0 []
           ["AC"; "DC"; "REL delta"] [] ["volts"] []); reflexivity.
Defined.

(** X7: with a retry limit of zero or less [read] raises
    [DmmReadFailure] at once, without reading from the port. *)
Theorem read_without_retries {port : Type} `{!Serial port}
    (self : Dmm.t) (p : port) :
  (Dmm.retries self ≤ 0)%Z →
  Dmm.read self p = (Raise DmmReadFailure, p, []).
Proof.
  intros H. unfold Dmm.read.
  replace (Z.to_nat (Dmm.retries self)) with 0 by lia. done.
Qed.

Lemma read_without_retries_witness :
  Dmm.read (Dmm.Build 0) ([millivolts_frame] : Script.t) =
  (Raise DmmReadFailure, [millivolts_frame], []).
Proof.
  apply (read_without_retries (port := Script.t) (Dmm.Build 0)). simpl. lia.
Defined.

(** An iteration that reads an aligned frame ends the retry loop. *)
Lemma attempts_aligned {port : Type} `{!Serial port} n k (p p1 : port) f :
  ser_read 14 p = (f, p1) → length f = 14 → aligned f = true →
  Dmm.attempts (S n) k p = (Ok (Some (k, f)), p1, [Read 14 f]).
Proof.
  intros Hp Hf Ha. rewrite attempts_S, Hp, decide_False, Ha by lia. done.
Qed.

(** X8: when the first fourteen bytes the port delivers are an aligned
    frame and the retry limit is positive, [read] makes that one read, no
    resynchronisation, and returns the object decoded from the frame with
    a retry count of zero. *)
Theorem read_aligned_frame {port : Type} `{!Serial port}
    (self : Dmm.t) (p p1 : port) (f : list byte) :
  ser_read 14 p = (f, p1) → length f = 14 → aligned f = true →
  (0 < Dmm.retries self)%Z →
  ∃ d, Dmm.read self p = (Ok d, p1, [Read 14 f])
    ∧ Dmm.decode 0 f = Ok d
    ∧ DmmValue.readErrors d = 0%Z ∧ DmmValue.rawBytes d = f.
Proof.
  intros Hp Hf Ha HR.
  destruct (decode_total 0 f Hf) as (d & Hd & Hraw & Herr).
  exists d. split_and!; try done.
  unfold Dmm.read.
  destruct (Z.to_nat (Dmm.retries self)) as [|n] eqn:E; [lia|].
  erewrite run_bind_Ok by by apply attempts_aligned.
  unfold Dmm.lift. by rewrite Hd.
Qed.

Lemma read_aligned_frame_witness :
  ∃ d, Dmm.read (Dmm.Build 3) ([millivolts_frame ++ [x10]] : Script.t) =
       (Ok d, [[x10]], [Read 14 millivolts_frame])
    ∧ Dmm.decode 0 millivolts_frame = Ok d
    ∧ DmmValue.readErrors d = 0%Z
    ∧ DmmValue.rawBytes d = millivolts_frame.
Proof.
  apply (read_aligned_frame (port := Script.t) (Dmm.Build 3)
           [millivolts_frame ++ [x10]] [[x10]] millivolts_frame);
    first [reflexivity | simpl; lia].
Defined.

(** On a steady stream, a resynchronisation that starts inside an aligned
    frame stops at the end of that frame. *)
Lemma synchronize_in_frame (q : nat) (frame more : list byte) bursts :
  length frame = 14 → aligned frame = true → q < 14 →
  Dmm._synchronize (((drop q frame) ++ more) :: bursts : Script.t) =
  (Ok (), more :: bursts, sync_reads q frame).
Proof.
  intros Hlen Ha Hq.
  destruct (lookup_lt_is_Some_2 frame q) as [b Hb]; [lia|].
  pose proof (proj1 (aligned_spec frame) Ha q b Hb) as Hpos.
  unfold sync_reads. rewrite (drop_S _ _ _ Hb).
  rewrite synchronize_script; [| lia | rewrite length_drop; lia].
  cbn [take]. rewrite take_0.
  destruct (decide (q = 13)) as [->|Hne].
  - assert (position b = 14%Z) as E by (rewrite Hpos; reflexivity).
    by rewrite decide_True.
  - rewrite decide_False by (rewrite Hpos; lia). rewrite Hpos.
    by replace (Z.to_nat (14 - Z.of_nat (S q))) with (13 - q) by lia.
Qed.

(** X9: constructing a [Dmm] on a steady stream opened inside a frame
    reads the rest of that frame and nothing more, and the object keeps its
    retry limit; on a silent line the constructor raises [DmmNoData]. *)
Theorem init_realigns (retries : Z) (q : nat) (frame more : list byte)
    (bursts : list (list byte)) :
  length frame = 14 → aligned frame = true → q < 14 →
  Dmm.init retries (((drop q frame) ++ more) :: bursts : Script.t) =
    (Ok (Dmm.Build retries), more :: bursts, sync_reads q frame)
  ∧ Dmm.init retries ([] : Script.t) = (Raise DmmNoData, [], [Read 1 []]).
Proof.
  intros Hlen Ha Hq. split; [|done].
  unfold Dmm.init.
  erewrite run_bind_Ok by by apply synchronize_in_frame.
  cbn. by rewrite app_nil_r.
Qed.

Lemma init_realigns_witness :
  Dmm.init 3 (((drop 5 millivolts_frame) ++ volts_frame) :: []
                : Script.t) =
    (Ok (Dmm.Build 3), [volts_frame], sync_reads 5 millivolts_frame)
  ∧ Dmm.init 3 ([] : Script.t) = (Raise DmmNoData, [], [Read 1 []]).
Proof.
  apply (init_realigns 3 5 millivolts_frame volts_frame []);
    first [reflexivity | simpl; lia].
Defined.

(** X10: on a steady stream opened inside a frame, constructing a [Dmm]
    and calling [read] returns the object decoded from the next frame, with
    a retry count of zero, and leaves the stream right after that frame. *)
Theorem init_then_read (retries : Z) (q : nat)
    (frame0 frame1 more : list byte) (bursts : list (list byte)) :
  length frame0 = 14 → aligned frame0 = true → q < 14 →
  length frame1 = 14 → aligned frame1 = true → (0 < retries)%Z →
  ∃ d, (Dmm.init retries ≫= Dmm.read)
         (((drop q frame0) ++ frame1 ++ more) :: bursts : Script.t) =
       (Ok d, more :: bursts, sync_reads q frame0 ++ [Read 14 frame1])
    ∧ Dmm.decode 0 frame1 = Ok d.
Proof.
  intros Hl0 Ha0 Hq Hl1 Ha1 HR.
  destruct (decode_total 0 frame1 Hl1) as (d & Hd & _).
  exists d. split; [|done].
  unfold Dmm.init.
  rewrite run_bind_assoc.
  erewrite run_bind_Ok by by apply synchronize_in_frame.
  unfold mbind at 1, mret. unfold Dmm.io_bind, Dmm.io_ret.
  unfold Dmm.read. cbn [Dmm.retries].
  destruct (Z.to_nat retries) as [|n] eqn:E; [lia|].
  erewrite run_bind_Ok.
  2:{ apply attempts_aligned with (p1 := more :: bursts); [|done..].
      rewrite <- Hl1. apply script_read_app. }
  unfold Dmm.lift. rewrite Hd. by cbn [app].
Qed.

Lemma init_then_read_witness :
  ∃ d, (Dmm.init 3 ≫= Dmm.read)
         (((drop 5 millivolts_frame) ++ volts_frame ++ [x1c]) :: []
            : Script.t) =
       (Ok d, [[x1c]], sync_reads 5 millivolts_frame ++ [Read 14 volts_frame])
    ∧ Dmm.decode 0 volts_frame = Ok d.
Proof.
  apply (init_then_read 3 5 millivolts_frame volts_frame [x1c] []);
    first [reflexivity | simpl; lia].
Defined.

(** X11: on a steady stream of aligned frames, a [read] that starts
    inside a frame loses one iteration: its first fourteen bytes straddle
    two frames, the two resynchronisations skip the rest of the second
    frame and the whole third, and the second iteration returns the object
    decoded from the fourth, with a retry count of one. *)
Theorem read_recovers_alignment (self : Dmm.t) (q : nat)
    (frame0 frame1 frame2 frame3 more : list byte)
    (bursts : list (list byte)) :
  length frame0 = 14 → aligned frame0 = true →
  length frame1 = 14 → aligned frame1 = true →
  length frame2 = 14 → aligned frame2 = true →
  length frame3 = 14 → aligned frame3 = true →
  1 ≤ q < 14 → (2 ≤ Dmm.retries self)%Z →
  ∃ d, Dmm.read self
         (((drop q frame0) ++ frame1 ++ frame2 ++ frame3 ++ more) :: bursts
            : Script.t) =
       (Ok d, more :: bursts,
        [Read 14 (drop q frame0 ++ take q frame1)]
          ++ sync_reads q frame1 ++ sync_reads 0 frame2
          ++ [Read 14 frame3])
    ∧ Dmm.decode 1 frame3 = Ok d
    ∧ DmmValue.readErrors d = 1%Z.
Proof.
  intros Hl0 Ha0 Hl1 Ha1 Hl2 Ha2 Hl3 Ha3 Hq HR.
  destruct (decode_total 1 frame3 Hl3) as (d & Hd & _ & Herr).
  exists d. split_and!; [|done..].
  unfold Dmm.read.
  destruct (Z.to_nat (Dmm.retries self)) as [|[|n]] eqn:E; [lia..|].
  set (f := drop q frame0 ++ take q frame1).
  assert (length f = 14) as Hf.
  { unfold f. rewrite length_app, length_drop, length_take. lia. }
  assert (aligned f = false) as Haf.
  { destruct (aligned f) eqn:Ha; [|done].
    destruct (lookup_lt_is_Some_2 frame0 q) as [b Hb]; [lia|].
    pose proof (proj1 (aligned_spec frame0) Ha0 q b Hb) as Hpos.
    assert (f !! 0 = Some b) as Hf0.
    { unfold f. rewrite lookup_app_l by (rewrite length_drop; lia).
      rewrite lookup_drop. by rewrite Nat.add_0_r. }
    pose proof (proj1 (aligned_spec f) Ha 0 b Hf0). lia. }
  assert (ser_read 14
            (((drop q frame0) ++ frame1 ++ frame2 ++ frame3 ++ more)
               :: bursts : Script.t) =
          (f, ((drop q frame1) ++ frame2 ++ frame3 ++ more) :: bursts))
    as Hread.
  { rewrite <- (take_drop q frame1) at 1.
    rewrite <- (app_assoc (take q frame1)), (app_assoc (drop q frame0)).
    fold f. rewrite <- Hf. apply script_read_app. }
  erewrite run_bind_Ok.
  2:{ rewrite attempts_S, Hread, decide_False, Haf by lia.
      erewrite run_bind_Ok
        by (apply synchronize_in_frame; [done | done | lia]).
      erewrite run_bind_Ok.
      2:{ apply (synchronize_in_frame 0 frame2); [done | done | lia]. }
      rewrite (attempts_aligned n (0 + 1) _ (more :: bursts) frame3);
        [reflexivity | | done | done].
      rewrite <- Hl3. apply script_read_app. }
  unfold Dmm.lift. rewrite Z.add_0_l, Hd. cbn [prefixed].
  by rewrite app_nil_r.
Qed.

Lemma read_recovers_alignment_witness :
  ∃ d, Dmm.read (Dmm.Build 3)
         (((drop 12 millivolts_frame) ++ millivolts_frame ++ volts_frame
             ++ acdc_frame ++ []) :: [] : Script.t) =
       (Ok d, [[]],
        [Read 14 (drop 12 millivolts_frame ++ take 12 millivolts_frame)]
          ++ sync_reads 12 millivolts_frame ++ sync_reads 0 volts_frame
          ++ [Read 14 acdc_frame])
    ∧ Dmm.decode 1 acdc_frame = Ok d
    ∧ DmmValue.readErrors d = 1%Z.
Proof.
  apply (read_recovers_alignment (Dmm.Build 3) 12 millivolts_frame
           millivolts_frame volts_frame acdc_frame [] []);
    first [reflexivity | simpl; lia].
Defined.

Lemma string_length_append (s1 s2 : string) :
  String.length (s1 +:+ s2) = String.length s1 + String.length s2.
Proof.
  induction s1 as [|c s1 IH]; [done|].
  change (String c s1 +:+ s2) with (String c (s1 +:+ s2)).
  cbn [String.length]. by rewrite IH.
Qed.

Lemma count_append c (s1 s2 : string) :
  PyStr.count c (s1 +:+ s2) = PyStr.count c s1 + PyStr.count c s2.
Proof.
  induction s1 as [|x s1 IH]; [done|].
  change (String x s1 +:+ s2) with (String x (s1 +:+ s2)).
  cbn [PyStr.count]. rewrite IH. lia.
Qed.

Lemma contains_append c (s1 s2 : string) :
  PyStr.contains c (s1 +:+ s2) = PyStr.contains c s1 || PyStr.contains c s2.
Proof.
  induction s1 as [|x s1 IH]; [done|].
  change (String x s1 +:+ s2) with (String x (s1 +:+ s2)).
  cbn [PyStr.contains]. rewrite IH. by destruct (Ascii.eqb x c).
Qed.

Lemma append_nil_r (s : string) : s +:+ "" = s.
Proof.
  induction s as [|c s IH]; [done|].
  change (String c s +:+ "") with (String c (s +:+ "")). by rewrite IH.
Qed.

(** A glyph is one character, neither a point nor a minus sign. *)
Lemma spec_glyph_char x y :
  (0 ≤ x < 8)%Z → (0 ≤ y < 16)%Z →
  String.length (spec_glyph x y) = 1
  ∧ PyStr.count "." (spec_glyph x y) = 0
  ∧ PyStr.contains "-" (spec_glyph x y) = false.
Proof.
  intros Hx Hy.
  assert (x = 0 ∨ x = 1 ∨ x = 2 ∨ x = 3 ∨ x = 4 ∨ x = 5 ∨ x = 6 ∨ x = 7)%Z
    as Hx' by lia.
  assert (y = 0 ∨ y = 1 ∨ y = 2 ∨ y = 3 ∨ y = 4 ∨ y = 5 ∨ y = 6 ∨ y = 7
          ∨ y = 8 ∨ y = 9 ∨ y = 10 ∨ y = 11 ∨ y = 12 ∨ y = 13 ∨ y = 14
          ∨ y = 15)%Z as Hy' by lia.
  clear Hx Hy. destruct_or!; subst; done.
Qed.

Lemma readDigit_cell byte1 byte2 :
  Dmm._readDigit byte1 byte2 =
  ((byte1 mod 16 / 8)%Z, spec_glyph (byte1 mod 8) (byte2 mod 16))
  ∧ ((byte1 mod 16 / 8 ≠ 0)%Z ↔ Z.testbit byte1 3 = true).
Proof.
  split.
  - rewrite readDigit_spec. do 2 f_equal.
    apply Z.mod_mod_divide. by exists 2%Z.
  - assert (0 ≤ byte1 mod 16 < 2 ^ (3 + 1))%Z as Hb
      by (apply (Z.mod_pos_bound byte1 16); lia).
    pose proof (testbit_top 3 (byte1 mod 16) ltac:(lia) Hb) as Ht.
    change (byte1 mod 16)%Z with (byte1 mod 2 ^ 4)%Z in Ht at 1.
    rewrite Z.mod_pow2_bits_low in Ht by lia.
    rewrite Ht, negb_true_iff, Z.eqb_neq. done.
Qed.

(** The digit loop of [read] concatenates the cells. *)
Lemma readDigits_cells ds bytes val :
  Forall (λ '(d1, d2, _),
            (1 ≤ d1 ≤ Z.of_nat (length bytes))%Z
            ∧ (1 ≤ d2 ≤ Z.of_nat (length bytes))%Z) ds →
  Dmm.readDigits ds bytes val = Ok (val +:+ digit_string ds bytes).
Proof.
  intros H. revert val.
  induction H as [|[[d1 d2] ch] ds [H1 H2] _ IH]; intros val.
  { cbn. by rewrite append_nil_r. }
  cbn [Dmm.readDigits digit_string foldr].
  fold (digit_string ds bytes).
  destruct (bytes_getitem_ok bytes (d1 - 1)) as (b1 & Hb1 & ->); [lia|].
  destruct (bytes_getitem_ok bytes (d2 - 1)) as (b2 & Hb2 & ->); [lia|].
  cbn [mbind result_bind].
  destruct (readDigit_cell (int_of_byte b1) (int_of_byte b2)) as [-> Hhigh].
  rewrite IH. f_equal. unfold cell, byte_at. rewrite Hb1, Hb2.
  destruct (Z.testbit (int_of_byte b1) 3) eqn:E.
  - rewrite decide_True by by apply Hhigh. by rewrite !append_assoc.
  - rewrite decide_False.
    + by rewrite !append_assoc.
    + by intros Hne%Hhigh.
Qed.

(** X12: the value string of the object built from a full frame is the
    four cells of the frame in a row: a minus sign when bit 3 of byte 2 is
    set, a point before the glyph of each later cell whose bit 3 is set,
    and one glyph per cell.  It holds four to eight characters, at most
    three points, and a minus sign only from the sign bit. *)
Theorem decode_digit_string readAttempt bytes :
  length bytes = 14 →
  ∃ d, Dmm.decode readAttempt bytes = Ok d
    ∧ DmmValue.rawVal d = digit_string Dmm.digits bytes
    ∧ 4 ≤ String.length (DmmValue.rawVal d) ≤ 8
    ∧ PyStr.count "." (DmmValue.rawVal d) ≤ 3
    ∧ PyStr.contains "-" (DmmValue.rawVal d) =
        Z.testbit (byte_at bytes 1) 3.
Proof.
  intros Hlen. unfold Dmm.decode.
  rewrite readDigits_cells.
  2:{ rewrite Hlen. unfold Dmm.digits.
      repeat (apply Forall_cons_2; [lia|]). apply Forall_nil_2. }
  cbn [mbind result_bind].
  destruct (frame_attribs bytes Hlen) as (a & -> & Ha & Hk).
  cbn [mbind result_bind].
  rewrite (init_eq _ a readAttempt bytes _ _ _ _
             (Ha "flags" ltac:(repeat constructor))
             (Ha "scale" ltac:(repeat constructor))
             (Ha "measure" ltac:(repeat constructor))
             (Ha "other" ltac:(repeat constructor))
             Hk).
  eexists. split; [done|]. project.
  change ("" +:+ digit_string Dmm.digits bytes)
    with (digit_string Dmm.digits bytes).
  split; [done|].
  unfold digit_string, Dmm.digits. cbn [foldr]. unfold cell.
  change (2 - 1)%Z with 1%Z. change (3 - 1)%Z with 2%Z.
  change (4 - 1)%Z with 3%Z. change (5 - 1)%Z with 4%Z.
  change (6 - 1)%Z with 5%Z. change (7 - 1)%Z with 6%Z.
  change (8 - 1)%Z with 7%Z. change (9 - 1)%Z with 8%Z.
  assert (∀ i j, String.length (spec_glyph (byte_at bytes i mod 8)
                                  (byte_at bytes j mod 16)) = 1
                 ∧ PyStr.count "." (spec_glyph (byte_at bytes i mod 8)
                                      (byte_at bytes j mod 16)) = 0
                 ∧ PyStr.contains "-" (spec_glyph (byte_at bytes i mod 8)
                                         (byte_at bytes j mod 16)) = false)
    as Hg.
  { intros i j. apply spec_glyph_char; apply Z.mod_pos_bound; lia. }
  rewrite !string_length_append, !count_append, !contains_append.
  destruct (Hg 1 2)%Z as (-> & -> & ->), (Hg 3 4)%Z as (-> & -> & ->),
    (Hg 5 6)%Z as (-> & -> & ->), (Hg 7 8)%Z as (-> & -> & ->).
  destruct (Z.testbit (byte_at bytes 1) 3), (Z.testbit (byte_at bytes 3) 3),
    (Z.testbit (byte_at bytes 5) 3), (Z.testbit (byte_at bytes 7) 3);
    cbn; split_and!; (done || lia).
Qed.

Lemma decode_digit_string_witness :
  ∃ d, Dmm.decode 0 millivolts_frame = Ok d
    ∧ DmmValue.rawVal d = digit_string Dmm.digits millivolts_frame
    ∧ 4 ≤ String.length (DmmValue.rawVal d) ≤ 8
    ∧ PyStr.count "." (DmmValue.rawVal d) ≤ 3
    ∧ PyStr.contains "-" (DmmValue.rawVal d) =
        Z.testbit (byte_at millivolts_frame 1) 3.
Proof. apply (decode_digit_string 0 millivolts_frame). reflexivity. Defined.

Lemma digit_cases n :
  (0 ≤ n ≤ 9)%Z →
  (n = 0 ∨ n = 1 ∨ n = 2 ∨ n = 3 ∨ n = 4 ∨ n = 5 ∨ n = 6 ∨ n = 7 ∨ n = 8
   ∨ n = 9)%Z.
Proof. lia. Qed.

Ltac by_digit H := apply digit_cases in H; destruct_or!; subst; reflexivity.

Lemma digit_val_char n :
  (0 ≤ n ≤ 9)%Z → PyFloat.digit_val (PyFloat.digit_char n) = Some n.
Proof. intros H. by_digit H. Qed.

Lemma is_space_digit n :
  (0 ≤ n ≤ 9)%Z → PyFloat.is_space (PyFloat.digit_char n) = false.
Proof. intros H. by_digit H. Qed.

Lemma underscore_digit n :
  (0 ≤ n ≤ 9)%Z → Ascii.eqb (PyFloat.digit_char n) "_" = false.
Proof. intros H. by_digit H. Qed.

Lemma take_sign_digit n l :
  (0 ≤ n ≤ 9)%Z →
  PyFloat.take_sign (PyFloat.digit_char n :: l)
  = (false, PyFloat.digit_char n :: l).
Proof. intros H. by_digit H. Qed.

Lemma not_a_word_digit n l :
  (0 ≤ n ≤ 9)%Z →
  let w := String.string_of_list_ascii
             (map PyFloat.lower (PyFloat.digit_char n :: l)) in
  String.eqb w "inf" || String.eqb w "infinity" = false
  ∧ String.eqb w "nan" = false.
Proof. intros H. apply digit_cases in H. destruct_or!; subst; done. Qed.

(** Without an underscore the text goes through unchanged. *)
Lemma underscores_none prev l :
  prev ≠ Some "_"%char → Forall (λ c, Ascii.eqb c "_" = false) l →
  PyFloat.underscores prev l = Some l.
Proof.
  intros Hp H. revert prev Hp.
  induction H as [|c l Hc _ IH]; intros prev Hp; cbn [PyFloat.underscores].
  - destruct prev as [p|]; [|done].
    destruct (Ascii.eqb_spec p "_") as [->|Hne]; [done|].
    by repeat case_match.
  - rewrite Hc.
    assert (PyFloat.underscores (Some c) l = Some l) as ->.
    { apply IH. intros [= ->]. done. }
    destruct prev as [p|]; [|done].
    destruct (Ascii.eqb_spec p "_") as [->|Hne]; [done|].
    by repeat case_match.
Qed.

Lemma lstrip_plain l :
  Forall (λ c, PyFloat.is_space c = false) l → PyFloat.lstrip l = l.
Proof. intros [|c l' Hc _]; [done|]. cbn. by rewrite Hc. Qed.

Lemma strip_plain l :
  Forall (λ c, PyFloat.is_space c = false) l → PyFloat.strip l = l.
Proof.
  intros H. unfold PyFloat.strip.
  rewrite (lstrip_plain l H), lstrip_plain by by apply List.Forall_rev.
  apply rev_involutive.
Qed.

Lemma take_digits_digits acc k ns rest :
  Forall (λ n, 0 ≤ n ≤ 9)%Z ns →
  match rest with
  | c :: _ => PyFloat.digit_val c = None
  | [] => True
  end →
  PyFloat.take_digits acc k (map PyFloat.digit_char ns ++ rest) =
  (horner acc ns, (k + Z.of_nat (length ns))%Z, rest).
Proof.
  intros H Hrest. revert acc k.
  induction H as [|n ns Hn _ IH]; intros acc k.
  - cbn [map app horner fold_left length]. rewrite Z.add_0_r.
    destruct rest as [|c rest]; [done|]. cbn. by rewrite Hrest.
  - cbn [map app PyFloat.take_digits]. rewrite digit_val_char by done.
    rewrite IH. cbn [horner fold_left length]. do 2 f_equal. lia.
Qed.

(** A plain decimal reads as the float nearest to it. *)
Lemma of_string_decimal neg ns1 pt ns2 :
  ns1 ≠ [] → Forall (λ n, 0 ≤ n ≤ 9)%Z ns1 → Forall (λ n, 0 ≤ n ≤ 9)%Z ns2 →
  PyFloat.of_string (decimal_text neg ns1 pt ns2) =
  Some (PyFloat.of_decimal neg
          (horner 0 (ns1 ++ if pt then ns2 else []))
          (- Z.of_nat (length (if pt then ns2 else [])))).
Proof.
  intros Hne H1 H2. unfold PyFloat.of_string, decimal_text, PyStr.chars.
  rewrite String.list_ascii_of_string_of_list_ascii.
  set (tail := if pt then "."%char :: map PyFloat.digit_char ns2 else []).
  assert (∀ ns, Forall (λ n, 0 ≤ n ≤ 9)%Z ns →
            Forall (λ c, PyFloat.is_space c = false
                         ∧ Ascii.eqb c "_" = false)
                   (map PyFloat.digit_char ns)) as Hdig.
  { intros ns Hns. apply Forall_fmap. eapply Forall_impl; [exact Hns|].
    intros n Hn. cbn. by rewrite is_space_digit, underscore_digit. }
  assert (Forall (λ c, PyFloat.is_space c = false ∧ Ascii.eqb c "_" = false)
            ((if neg then ["-"%char] else [])
               ++ map PyFloat.digit_char ns1 ++ tail)) as Hall.
  { repeat apply Forall_app_2; [by destruct neg; repeat constructor | auto |].
    unfold tail. destruct pt; [|done]. apply Forall_cons_2; [done | auto]. }
  rewrite strip_plain by (eapply Forall_impl; [exact Hall|]; by intros ? [??]).
  rewrite underscores_none;
    [| done | eapply Forall_impl; [exact Hall|]; by intros ? [??]].
  destruct ns1 as [|n ns1]; [done|]. apply Forall_cons in H1 as [Hn H1].
  assert (PyFloat.parse_signed
            ((if neg then ["-"%char] else [])
               ++ map PyFloat.digit_char (n :: ns1) ++ tail) =
          PyFloat.parse_number neg
            (map PyFloat.digit_char (n :: ns1) ++ tail)) as ->.
  { unfold PyFloat.parse_signed.
    assert (PyFloat.take_sign
              ((if neg then ["-"%char] else [])
                 ++ map PyFloat.digit_char (n :: ns1) ++ tail) =
            (neg, map PyFloat.digit_char (n :: ns1) ++ tail)) as ->.
    { destruct neg; [done|]. cbn [app map]. by apply take_sign_digit. }
    cbn [map app]. cbv zeta.
    destruct (not_a_word_digit n (map PyFloat.digit_char ns1 ++ tail) Hn)
      as [Hinf Hnan]. cbv zeta in Hinf, Hnan. cbn [map] in Hinf, Hnan.
    by rewrite Hinf, Hnan. }
  unfold PyFloat.parse_number.
  rewrite take_digits_digits;
    [| by apply Forall_cons_2 | unfold tail; by destruct pt].
  unfold tail. destruct pt.
  - rewrite <- (app_nil_r (map PyFloat.digit_char ns2)).
    rewrite take_digits_digits by done.
    cbn [PyFloat.parse_exponent length].
    destruct (Z.ltb_spec 0 (0 + Z.of_nat (S (length ns1))
                            + (0 + Z.of_nat (length ns2)))); [|lia].
    unfold horner. rewrite fold_left_app. do 3 f_equal; lia.
  - cbn [PyFloat.parse_exponent length].
    destruct (Z.ltb_spec 0 (0 + Z.of_nat (S (length ns1)) + 0)); [|lia].
    by rewrite app_nil_r.
Qed.

Lemma contains_of_list c l :
  PyStr.contains c (String.string_of_list_ascii l) =
  existsb (λ x, Ascii.eqb x c) l.
Proof. induction l as [|x l IH]; [done|]. cbn. rewrite IH. by destruct (Ascii.eqb x c). Qed.

Lemma count_of_list c l :
  PyStr.count c (String.string_of_list_ascii l) =
  length (filter (λ x, Ascii.eqb x c = true) l).
Proof.
  induction l as [|x l IH]; [done|]. cbn [String.string_of_list_ascii PyStr.count].
  rewrite filter_cons, IH. destruct (Ascii.eqb x c); by case_decide.
Qed.

Lemma digit_not_mark n :
  (0 ≤ n ≤ 9)%Z →
  Ascii.eqb (PyFloat.digit_char n) "X" = false
  ∧ Ascii.eqb (PyFloat.digit_char n) "." = false.
Proof. intros H. apply digit_cases in H. destruct_or!; subst; done. Qed.

Lemma decimal_text_sane neg ns1 pt ns2 :
  Forall (λ n, 0 ≤ n ≤ 9)%Z ns1 → Forall (λ n, 0 ≤ n ≤ 9)%Z ns2 →
  val_sane (decimal_text neg ns1 pt ns2) = true.
Proof.
  intros H1 H2. unfold val_sane, decimal_text.
  rewrite contains_of_list, count_of_list, !existsb_app, !filter_app,
    !length_app.
  assert (∀ ns, Forall (λ n, 0 ≤ n ≤ 9)%Z ns →
            existsb (λ x, Ascii.eqb x "X") (map PyFloat.digit_char ns) = false
            ∧ filter (λ x, Ascii.eqb x "." = true)
                (map PyFloat.digit_char ns) = []) as Hd.
  { intros ns Hns. induction Hns as [|n ns Hn _ [IH1 IH2]]; [done|].
    destruct (digit_not_mark n Hn) as [HX Hp].
    cbn [map existsb]. rewrite filter_cons, HX, Hp, IH1, IH2.
    by case_decide. }
  destruct (Hd ns1 H1) as [-> ->], (Hd ns2 H2) as [E1 E2].
  destruct neg, pt; cbn [existsb orb negb andb length filter];
    rewrite ?filter_cons, ?E1, ?E2; by repeat case_decide.
Qed.

(** X13: a reading written with decimal digits only, after an optional
    minus sign and with at most one point, is always converted:
    [numericVal] is the float nearest to the decimal the digits write,
    times the multiplier of the scale, and [val] is that float printed. *)
Theorem digit_reading_is_converted neg ns1 pt ns2 a re rb fl sc ms ot :
  ns1 ≠ [] →
  Forall (λ n, 0 ≤ n ≤ 9)%Z ns1 → Forall (λ n, 0 ≤ n ≤ 9)%Z ns2 →
  a !! "flags" = Some fl → a !! "scale" = Some sc →
  a !! "measure" = Some ms → a !! "other" = Some ot →
  scale_known sc = true →
  ∃ d, DmmValue.init (decimal_text neg ns1 pt ns2) a re rb = Ok d
    ∧ DmmValue.numericVal d =
        Some (float_mul (decimal_value neg ns1 pt ns2) (multiplier_of sc))
    ∧ DmmValue.val d = PyFloat.to_string (decimal_value neg ns1 pt ns2).
Proof.
  intros Hne H1 H2 Hf Hs Hm Ho Hk.
  rewrite (init_eq _ _ _ _ _ _ _ _ Hf Hs Hm Ho Hk).
  eexists; split; [reflexivity|]. project.
  unfold numeric_of, val_of.
  rewrite decimal_text_sane, of_string_decimal by done. done.
Qed.

Lemma digit_reading_is_converted_witness :
  ∃ d, DmmValue.init "-12.34" (attribs_of [] ["milli"] ["volts"] []) 0 [] = Ok d
    ∧ DmmValue.numericVal d =
        Some (float_mul (decimal_value true [1; 2]%Z true [3; 4]%Z)
                (multiplier_of ["milli"]))
    ∧ DmmValue.val d =
        PyFloat.to_string (decimal_value true [1; 2]%Z true [3; 4]%Z).
Proof.
  apply (digit_reading_is_converted true [1; 2]%Z true [3; 4]%Z
           _ 0 [] [] ["milli"] ["volts"] []);
    [done
    | repeat (apply Forall_cons_2; [lia|]); apply Forall_nil_2
    | repeat (apply Forall_cons_2; [lia|]); apply Forall_nil_2
    | reflexivity ..].
Defined.
